(** * PodScribe: transcript/diarization fusion, chunking and timestamps

    A shallow embedding of the algorithmic core of the repository:

    - [src/utils/helpers.py]          ([seconds_to_timestamp],
                                       [timestamp_to_seconds]),
    - [src/audio_processing/fusion.py] ([find_speaker_for_segment],
                                       [merge_transcription_and_diarization]),
    - [src/database/chunking.py]       ([chunk_transcript],
                                       [chunk_by_speaker_turns]).

    Modelling conventions.

    - Times are Python floats in the source; here they are rationals ([Q]),
      and a double is the rational it denotes.  Comparison, [max] and [min]
      are exact on floats and exact here.  The subtraction of the overlap
      matcher ([fusion.py], line 36), whose result decides between two
      candidates, is the float subtraction: the exact difference rounded to
      the nearest double ([Py.float_sub]).  The subtractions of the chunkers
      and [round] are the exact operations.  NaN and the infinities are
      outside the model.
    - Text is a [string] holding the UTF-8 bytes of the Python string: a
      character is one to four bytes, [len] counts characters, and the white
      space of [strip] is the one of Unicode ([Py.isspace]).
    - A dictionary is a record.  A key that the code reads with [.get], tests
      with [in], or whose absence the specification describes, is an [option]
      field; a key that is only ever subscripted is a plain field.
    - A Python exception is the [Raised] case of [Py.outcome]. *)

From Stdlib Require Import QArith Qround Qabs Qminmax Qpower Lqa ZArith Lia.
From Stdlib Require Import List Bool.
From Stdlib Require Import Permutation.
From Stdlib Require Import String Ascii DecimalString DecimalN.
Import ListNotations.

(* ================================================================== *)
(** * Python primitives *)
(* ================================================================== *)

Module Py.

(** The exceptions that the modelled code can raise. *)
Inductive exn : Type :=
| KeyError (key : string)
| ValueError
| TypeError
| OverflowError.

Inductive outcome (A : Type) : Type :=
| Returned (a : A)
| Raised (e : exn).
Arguments Returned {A} a.
Arguments Raised {A} e.

Definition bind {A B} (m : outcome A) (k : A -> outcome B) : outcome B :=
  match m with
  | Returned a => k a
  | Raised e => Raised e
  end.

(** [[f(x) for x in xs]] where [f] may raise: the first exception wins. *)
Fixpoint traverse {A B} (f : A -> outcome B) (xs : list A)
  : outcome (list B) :=
  match xs with
  | [] => Returned []
  | x :: xs' =>
      bind (f x) (fun y =>
      bind (traverse f xs') (fun ys => Returned (y :: ys)))
  end.

(** ** Numbers *)

Definition ltb (a b : Q) : bool :=
  (Qnum a * QDen b <? Qnum b * QDen a)%Z.

Definition leb (a b : Q) : bool := Qle_bool a b.

(** [max(a, b)] and [min(a, b)] return the first argument on a tie. *)
Definition max (a b : Q) : Q := if ltb a b then b else a.
Definition min (a b : Q) : Q := if ltb b a then b else a.

(** Truth value of a number: zero is falsy. *)
Definition truthy (a : Q) : bool := negb (Qeq_bool a 0).

(** Truth value of an optional number ([None] or zero are falsy). *)
Definition truthy_opt (a : option Q) : bool :=
  match a with
  | Some q => truthy q
  | None => false
  end.

(** [a or b] on an optional number and a number. *)
Definition or_else (a : option Q) (b : Q) : Q :=
  match a with
  | Some q => if truthy q then q else b
  | None => b
  end.

(** [d.get(key, default)]. *)
Definition get {A} (field : option A) (default : A) : A :=
  match field with
  | Some v => v
  | None => default
  end.

(** Round half to even, to an integer. *)
Definition round_half_even (q : Q) : Z :=
  let f := Qfloor q in
  let r := q - inject_Z f in
  if ltb r (1 # 2) then f
  else if ltb (1 # 2) r then (f + 1)%Z
  else if Z.even f then f else (f + 1)%Z.

(** [round(q, ndigits)]. *)
Definition round (q : Q) (ndigits : nat) : Q :=
  let scale := Z.to_pos (10 ^ Z.of_nat ndigits) in
  Qmake (round_half_even (q * inject_Z (Z.pos scale))) scale.

(** ** Binary floating point *)

(** [2 ** k] for an integer [k] of either sign. *)
Definition pow2 (k : Z) : Q := 2 ^ k.

(** For [0 < q], the exponent [e] with [2 ** e <= q < 2 ** (e + 1)]. *)
Definition ilog2 (q : Q) : Z :=
  let e0 := (Z.log2 (Qnum q) - Z.log2 (Z.pos (Qden q)))%Z in
  if Qle_bool (pow2 e0) q then e0 else (e0 - 1)%Z.

(** Exponent of the last bit a double keeps of the magnitude [a]: 53
    significant bits, and no bit below [2 ** -1074] (the subnormal
    range). *)
Definition last_bit (a : Q) : Z := Z.max (ilog2 a - 52) (-1074).

(** The magnitude [0 < a] rounded to a whole number of last bits, ties to
    the even one. *)
Definition round_magnitude (a : Q) : Q :=
  let k := last_bit a in
  inject_Z (round_half_even (a * pow2 (- k))) * pow2 k.

(** The double nearest to [q].  The largest finite double exceeds the
    length of any recording by far, so the overflow to infinity is left
    out. *)
Definition to_double (q : Q) : Q :=
  if Qeq_bool q 0 then 0
  else if ltb q 0 then - round_magnitude (- q)
  else round_magnitude q.

(** [a - b] on two floats: the exact difference of the two doubles,
    rounded once.  A rational that is not itself a double stands for the
    double nearest to it, as a literal of the program text does. *)
Definition float_sub (a b : Q) : Q := to_double (to_double a - to_double b).

(** ** Strings *)

(** A [string] holds the UTF-8 encoding of a Python [str]: one character
    of the Python string is one to four bytes here. *)

(** Number of bytes of the character whose encoding starts with [c]. *)
Definition char_width (c : ascii) : nat :=
  let n := nat_of_ascii c in
  if (n <? 192)%nat then 1
  else if (n <? 224)%nat then 2
  else if (n <? 240)%nat then 3
  else 4.

(** The characters of a string, each with its own bytes.  A lead byte
    that the string ends too soon after stands for itself. *)
Fixpoint chars (s : string) : list string :=
  match s with
  | EmptyString => []
  | String a s1 =>
      match char_width a, s1 with
      | 2%nat, String b s2 =>
          String a (String b EmptyString) :: chars s2
      | 3%nat, String b (String c s3) =>
          String a (String b (String c EmptyString)) :: chars s3
      | 4%nat, String b (String c (String d s4)) =>
          String a (String b (String c (String d EmptyString))) :: chars s4
      | _, _ => String a EmptyString :: chars s1
      end
  end.

(** The string made of the given characters. *)
Fixpoint unchars (cs : list string) : string :=
  match cs with
  | [] => EmptyString
  | ch :: cs' => (ch ++ unchars cs')%string
  end.

(** [ord(ch)] of one character. *)
Definition code_point (ch : string) : N :=
  match map N_of_ascii (list_ascii_of_string ch) with
  | [a] => a
  | [a; b] => (a - 192) * 64 + (b - 128)
  | [a; b; c] => (a - 224) * 4096 + (b - 128) * 64 + (c - 128)
  | [a; b; c; d] =>
      (a - 240) * 262144 + (b - 128) * 4096 + (c - 128) * 64 + (d - 128)
  | _ => 0
  end%N.

(** [len(s)]: the number of characters. *)
Definition len (s : string) : Z := Z.of_nat (List.length (chars s)).

(** [ch.isspace()], the characters [str.strip()] removes: U+0009 to
    U+000D, U+001C to U+0020, U+0085, U+00A0, U+1680, U+2000 to U+200A,
    U+2028, U+2029, U+202F, U+205F and U+3000. *)
Definition isspace (ch : string) : bool :=
  let n := code_point ch in
  (((9 <=? n) && (n <=? 13)) || ((28 <=? n) && (n <=? 32))
   || (n =? 133) || (n =? 160) || (n =? 5760)
   || ((8192 <=? n) && (n <=? 8202))
   || (n =? 8232) || (n =? 8233) || (n =? 8239) || (n =? 8287)
   || (n =? 12288))%N.

(** The list without its longest prefix of elements that satisfy [p]. *)
Fixpoint drop_while {A} (p : A -> bool) (xs : list A) : list A :=
  match xs with
  | [] => []
  | x :: xs' => if p x then drop_while p xs' else xs
  end.

Definition lstrip (s : string) : string :=
  unchars (drop_while isspace (chars s)).

Definition rstrip (s : string) : string :=
  unchars (rev (drop_while isspace (rev (chars s)))).

Definition strip (s : string) : string :=
  unchars (rev (drop_while isspace (rev (drop_while isspace (chars s))))).

(** Truth value of a string: the empty string is falsy. *)
Definition nonempty (s : string) : bool :=
  match s with
  | EmptyString => false
  | String _ _ => true
  end.

(** [sep.join(parts)] *)
Fixpoint join (sep : string) (parts : list string) : string :=
  match parts with
  | [] => EmptyString
  | [p] => p
  | p :: rest => (p ++ sep ++ join sep rest)%string
  end.

(** [xs[lo:hi]] for [0 <= lo] and [0 <= hi]. *)
Definition slice {A} (xs : list A) (lo hi : nat) : list A :=
  skipn lo (firstn hi xs).

(** Adding to a set, kept as a duplicate-free list in order of first
    insertion. *)
Definition set_add (x : string) (s : list string) : list string :=
  if existsb (String.eqb x) s then s else (s ++ [x])%list.

Definition set_of (xs : list string) : list string :=
  fold_left (fun s x => set_add x s) xs [].

End Py.

Notation "x <- m ;; k" := (Py.bind m (fun x => k))
  (at level 61, m at next level, right associativity).
Notation "' pat <- m ;; k" :=
  (Py.bind m (fun x => match x with pat => k end))
  (at level 61, pat pattern, m at next level, right associativity).

(* ================================================================== *)
(** * Timestamp utilities ([src/utils/helpers.py]) *)
(* ================================================================== *)

Module Helpers.
Import Py.

(** ** [datetime.timedelta] *)

(** A normalised [timedelta]: [0 <= seconds < 86400] and
    [0 <= microseconds < 1000000]. *)
Record timedelta : Type := {
  td_days : Z;
  td_seconds : Z;
  td_microseconds : Z
}.

(** [timedelta(seconds=x)]: the value is rounded half-even to a whole
    number of microseconds and normalised; more than 999999999 days in
    either direction is an [OverflowError]. *)
Definition timedelta_of_seconds (x : Q) : outcome timedelta :=
  let us := round_half_even (x * inject_Z 1000000) in
  let total_seconds := (us / 1000000)%Z in
  let days := (total_seconds / 86400)%Z in
  if ((days <? -999999999) || (999999999 <? days))%Z
  then Raised OverflowError
  else Returned {| td_days := days;
                   td_seconds := (total_seconds mod 86400)%Z;
                   td_microseconds := (us mod 1000000)%Z |}.

(** ** Formatting *)

(** [str(n)] for a natural number. *)
Definition decimal (n : Z) : string :=
  NilZero.string_of_uint (N.to_uint (Z.to_N n)).

Fixpoint zeros (k : nat) : string :=
  match k with
  | O => EmptyString
  | S k' => String "0"%char (zeros k')
  end.

(** [f"{n:0{width}d}"] for [0 <= n]. *)
Definition format_0d (width : nat) (n : Z) : string :=
  let s := decimal n in
  (zeros (width - String.length s) ++ s)%string.

(** [int(q)]: truncation towards zero. *)
Definition int_of_float (q : Q) : Z := Z.quot (Qnum q) (Z.pos (Qden q)).

(** [q % 1] *)
Definition mod1 (q : Q) : Q := q - inject_Z (Qfloor q).

Definition seconds_to_timestamp (seconds : Q) (include_ms : bool)
  : outcome string :=
  let seconds := if ltb seconds 0 then 0 else seconds in
  td <- timedelta_of_seconds seconds ;;
  let hours := (td_seconds td / 3600)%Z in
  let minutes := ((td_seconds td mod 3600) / 60)%Z in
  let secs := (td_seconds td mod 60)%Z in
  if include_ms then
    let milliseconds := int_of_float (mod1 seconds * inject_Z 1000) in
    Returned (format_0d 2 hours ++ ":" ++ format_0d 2 minutes ++ ":"
              ++ format_0d 2 secs ++ "." ++ format_0d 3 milliseconds)%string
  else
    Returned (format_0d 2 hours ++ ":" ++ format_0d 2 minutes ++ ":"
              ++ format_0d 2 secs)%string.

(** ** Parsing *)

Definition digit_of (c : ascii) : option Z :=
  let n := nat_of_ascii c in
  if ((48 <=? n) && (n <=? 57))%nat then Some (Z.of_nat (n - 48)) else None.

(** Value of a run of decimal digits, most significant first; [None] when
    a character is not a digit. *)
Fixpoint digits_value (acc : Z) (s : string) : option Z :=
  match s with
  | EmptyString => Some acc
  | String c s' =>
      match digit_of c with
      | Some d => digits_value (10 * acc + d) s'
      | None => None
      end
  end.

(** [int(s)]: optional surrounding white space, an optional sign and at
    least one decimal digit.  (Python also admits single underscores
    between digits; such strings are a [ValueError] here.) *)
Definition int_of_string (s : string) : outcome Z :=
  let body (t : string) : outcome Z :=
    match t with
    | EmptyString => Raised ValueError
    | _ => match digits_value 0 t with
           | Some v => Returned v
           | None => Raised ValueError
           end
    end in
  match strip s with
  | String "-"%char t => v <- body t ;; Returned (- v)%Z
  | String "+"%char t => body t
  | t => body t
  end.

(** [float("0." + ms_part)]: a possibly empty run of decimal digits,
    optionally followed by white space.  (Python also admits an exponent
    and underscores; such strings are a [ValueError] here.) *)
Definition float_of_fraction (ms_part : string) : outcome Q :=
  let t := rstrip ms_part in
  match digits_value 0 t with
  | Some v => Returned (Qmake v (Z.to_pos (10 ^ Z.of_nat (String.length t))))
  | None => Raised ValueError
  end.

(** [s.split(sep)] for a one-character separator. *)
Fixpoint split (sep : ascii) (s : string) : list string :=
  match s with
  | EmptyString => [EmptyString]
  | String c s' =>
      if Ascii.eqb c sep then EmptyString :: split sep s'
      else match split sep s' with
           | p :: ps => String c p :: ps
           | [] => [String c EmptyString]
           end
  end.

(** [sep in s] *)
Fixpoint contains (sep : ascii) (s : string) : bool :=
  match s with
  | EmptyString => false
  | String c s' => Ascii.eqb c sep || contains sep s'
  end.

(** The body of the [try] block of [timestamp_to_seconds]. *)
Definition timestamp_to_seconds_body (timestamp : string) : outcome Q :=
  '(time_part, milliseconds) <-
    (if contains "."%char timestamp then
       match split "."%char timestamp with
       | [time_part; ms_part] =>
           ms <- float_of_fraction ms_part ;; Returned (time_part, ms)
       | _ => Raised ValueError
       end
     else Returned (timestamp, 0)) ;;
  let parts := split ":"%char time_part in
  '(hours, minutes, seconds) <-
    match parts with
    | [h; m; s] =>
        h' <- int_of_string h ;;
        m' <- int_of_string m ;;
        s' <- int_of_string s ;;
        Returned (h', m', s')
    | [m; s] =>
        m' <- int_of_string m ;;
        s' <- int_of_string s ;;
        Returned (0%Z, m', s')
    | _ => Raised ValueError
    end ;;
  let total_seconds :=
    inject_Z (hours * 3600 + minutes * 60 + seconds) + milliseconds in
  Returned (round total_seconds 3).

(** Every exception of the body is re-raised as a [ValueError]. *)
Definition timestamp_to_seconds (timestamp : string) : outcome Q :=
  match timestamp_to_seconds_body timestamp with
  | Returned v => Returned v
  | Raised _ => Raised ValueError
  end.

(** ** [format_file_size] *)

(** [f"{q:.1f}"]: the magnitude is rounded half-even to a whole number of
    tenths; a negative value keeps its sign. *)
Definition format_1f (q : Q) : string :=
  let tenths := round_half_even (Qabs q * inject_Z 10) in
  ((if ltb q 0 then "-" else "")
   ++ decimal (tenths / 10) ++ "." ++ decimal (tenths mod 10))%string.

(** The loop of lines 107-110 over the units still to try, and line 111. *)
Fixpoint format_file_size_from (units : list string) (size_bytes : Q)
  : string :=
  match units with
  | [] => (format_1f size_bytes ++ " TB")%string
  | unit :: units' =>
      if ltb size_bytes 1024
      then (format_1f size_bytes ++ " " ++ unit)%string
      else format_file_size_from units' (size_bytes / 1024)
  end.

Definition format_file_size (size_bytes : Z) : string :=
  format_file_size_from ["B"; "KB"; "MB"; "GB"]%string (inject_Z size_bytes).

End Helpers.

(* ================================================================== *)
(** * Fusion ([src/audio_processing/fusion.py]) *)
(* ================================================================== *)

Module Fusion.
Import Py.

(** ** Data *)

(** One diarization interval. *)
Record speaker_segment : Type := {
  sp_start : Q;
  sp_end : Q;
  sp_speaker : string
}.

(** One word of a transcript segment; its own time stamps are optional
    (read with [word.get]). *)
Record word : Type := {
  w_word : string;
  w_start : option Q;
  w_end : option Q
}.

Record transcript_segment : Type := {
  ts_start : Q;
  ts_end : Q;
  ts_text : string;
  ts_words : option (list word)
}.

(** Output of the transcription stage. *)
Record transcription : Type := {
  tr_file : string;
  tr_language : string;
  tr_segments : option (list transcript_segment)
}.

(** Output of the diarization stage. *)
Record diarization : Type := {
  di_file : string;
  di_num_speakers : Z;
  di_speakers : list string;
  di_segments : option (list speaker_segment)
}.

Record merged_word : Type := {
  mw_word : string;
  mw_start : Q;
  mw_end : Q;
  mw_speaker : string
}.

(** A segment of a merged transcript.  The chunkers read ["speaker"]
    with [.get], so the key is optional; fusion always sets it. *)
Record merged_segment : Type := {
  ms_start : Q;
  ms_end : Q;
  ms_text : string;
  ms_speaker : option string;
  ms_words : option (list merged_word)
}.

(** A merged transcript.  The chunkers read ["file"] and ["segments"]
    with [.get]; fusion always sets both. *)
Record merged_transcript : Type := {
  mt_file : option string;
  mt_language : string;
  mt_num_speakers : Z;
  mt_speakers : list string;
  mt_segments : option (list merged_segment)
}.

(** ** [find_speaker_for_segment] *)

(** Overlap of the query [segment_start, segment_end] with one
    diarization interval (lines 34-36). *)
Definition overlap (segment_start segment_end : Q) (seg : speaker_segment)
  : Q :=
  let overlap_start := max segment_start (sp_start seg) in
  let overlap_end := min segment_end (sp_end seg) in
  max 0 (float_sub overlap_end overlap_start).

(** One iteration of the loop on the state [(max_overlap, best_speaker)]
    (lines 33-40). *)
Definition find_step (segment_start segment_end : Q)
           (st : Q * string) (seg : speaker_segment) : Q * string :=
  let '(max_overlap, best_speaker) := st in
  let ov := overlap segment_start segment_end seg in
  if ltb max_overlap ov then (ov, sp_speaker seg)
  else (max_overlap, best_speaker).

Definition find_speaker_for_segment (segment_start segment_end : Q)
           (speaker_segments : list speaker_segment) : string :=
  let '(max_overlap, best_speaker) :=
    fold_left (find_step segment_start segment_end) speaker_segments
              (0, "UNKNOWN"%string) in
  if ltb 0 max_overlap then best_speaker else "UNKNOWN"%string.

(** ** [merge_transcription_and_diarization] *)

(** Body of the inner loop over the words of a segment (lines 85-94). *)
Definition merge_word (speaker_segments : list speaker_segment)
           (start_time end_time : Q) (w : word) : merged_word :=
  let word_start := get (w_start w) start_time in
  let word_end := get (w_end w) end_time in
  let word_speaker :=
    find_speaker_for_segment word_start word_end speaker_segments in
  {| mw_word := w_word w;
     mw_start := round word_start 3;
     mw_end := round word_end 3;
     mw_speaker := word_speaker |}.

(** Body of the loop over the transcript segments (lines 68-98). *)
Definition merge_segment (speaker_segments : list speaker_segment)
           (segment : transcript_segment) : merged_segment :=
  let start_time := ts_start segment in
  let end_time := ts_end segment in
  let speaker :=
    find_speaker_for_segment start_time end_time speaker_segments in
  {| ms_start := round start_time 3;
     ms_end := round end_time 3;
     ms_text := strip (ts_text segment);
     ms_speaker := Some speaker;
     ms_words :=
       match ts_words segment with
       | Some words =>
           Some (map (merge_word speaker_segments start_time end_time)
                     words)
       | None => None
       end |}.

Section Merge.

(** The file system is the only state the function touches: [save_json]
    is taken as given, as a function on an abstract world that may
    raise. *)
Context {world : Type}.
Variable save_json :
  merged_transcript -> string -> world -> outcome unit * world.

(** [output_path] is [None] or a path; an empty string is falsy. *)
Definition merge_transcription_and_diarization
           (transcription_ : transcription) (diarization_ : diarization)
           (output_path : option string) (w : world)
  : outcome merged_transcript * world :=
  match di_segments diarization_ with
  | None => (Raised (KeyError "segments"), w)
  | Some speaker_segments =>
      match tr_segments transcription_ with
      | None => (Raised (KeyError "segments"), w)
      | Some transcript_segments =>
          let merged_segments :=
            map (merge_segment speaker_segments) transcript_segments in
          let output :=
            {| mt_file := Some (tr_file transcription_);
               mt_language := tr_language transcription_;
               mt_num_speakers := di_num_speakers diarization_;
               mt_speakers := di_speakers diarization_;
               mt_segments := Some merged_segments |} in
          match output_path with
          | Some path =>
              if nonempty path then
                match save_json output path w with
                | (Returned _, w') => (Returned output, w')
                | (Raised e, w') => (Raised e, w')
                end
              else (Returned output, w)
          | None => (Returned output, w)
          end
      end
  end.

End Merge.

End Fusion.

(* ================================================================== *)
(** * Configuration ([src/utils/config.py]) *)
(* ================================================================== *)

Module Config.
Definition CHUNK_DURATION : Q := 45.
Definition CHUNK_OVERLAP : Q := 5.
End Config.

(* ================================================================== *)
(** * Chunking ([src/database/chunking.py]) *)
(* ================================================================== *)

Module Chunking.
Import Py Helpers Fusion.

(** [segment.get("speaker", "UNKNOWN")] *)
Definition speaker_of (segment : merged_segment) : string :=
  get (ms_speaker segment) "UNKNOWN"%string.

(** [seconds_to_timestamp(d[key])] on a value that may still be [None]:
    the comparison [None < 0] is a [TypeError]. *)
Definition timestamp_of (t : option Q) : outcome string :=
  match t with
  | Some q => seconds_to_timestamp q true
  | None => Raised TypeError
  end.

(** ** [chunk_transcript] *)

(** The [current_chunk] dictionary (lines 44-50). *)
Record accumulator : Type := {
  acc_text : string;
  acc_start : option Q;
  acc_end : option Q;
  acc_speakers : list string;
  acc_segment_indices : list nat
}.

Definition empty_accumulator : accumulator :=
  {| acc_text := EmptyString;
     acc_start := None;
     acc_end := None;
     acc_speakers := [];
     acc_segment_indices := [] |}.

(** A formatted chunk (lines 104-115). *)
Record chunk : Type := {
  chunk_id : nat;
  text : string;
  start : Q;
  end_ : Q;
  timestamp_start : string;
  timestamp_end : string;
  duration : Q;
  speakers : list string;
  episode : string;
  num_segments : nat
}.

(** The flush test of line 65. *)
Definition flushes (chunk_duration : Q) (min_chunk_size : Z)
           (chunk_start segment_end : Q) (current_text : string) : bool :=
  ltb chunk_duration (segment_end - chunk_start)
  && (min_chunk_size <=? len current_text)%Z.

(** One iteration of the loop of lines 52-92, on the state
    [(chunks, current_chunk)]. *)
Definition step (segments : list merged_segment)
           (chunk_duration chunk_overlap : Q) (min_chunk_size : Z)
           (st : list accumulator * accumulator)
           (idx : nat) (segment : merged_segment)
  : list accumulator * accumulator :=
  let '(chunks, current_chunk) := st in
  let segment_start := ms_start segment in
  let segment_end := ms_end segment in
  let segment_text := ms_text segment in
  let segment_speaker := speaker_of segment in
  (* lines 59-60 *)
  let chunk_start := get (acc_start current_chunk) segment_start in
  (* lines 63-86 *)
  let '(chunks, current_chunk) :=
    if flushes chunk_duration min_chunk_size chunk_start segment_end
               (acc_text current_chunk)
    then
      let saved :=
        {| acc_text := acc_text current_chunk;
           acc_start := Some chunk_start;
           acc_end := Some segment_end;
           acc_speakers := acc_speakers current_chunk;
           acc_segment_indices := acc_segment_indices current_chunk |} in
      let overlap_start := segment_end - chunk_overlap in
      let overlap_segments :=
        filter (fun s => leb overlap_start (ms_end s))
               (slice segments (idx - 5) idx) in
      ((chunks ++ [saved])%list,
       {| acc_text := join " " (map ms_text overlap_segments);
          acc_start := Some overlap_start;
          acc_end := None;
          acc_speakers := set_of (map speaker_of overlap_segments);
          acc_segment_indices := [] |})
    else
      (chunks,
       {| acc_text := acc_text current_chunk;
          acc_start := Some chunk_start;
          acc_end := acc_end current_chunk;
          acc_speakers := acc_speakers current_chunk;
          acc_segment_indices := acc_segment_indices current_chunk |}) in
  (* lines 89-92 *)
  (chunks,
   {| acc_text := (acc_text current_chunk ++ " " ++ segment_text)%string;
      acc_start := acc_start current_chunk;
      acc_end := Some segment_end;
      acc_speakers := set_add segment_speaker (acc_speakers current_chunk);
      acc_segment_indices :=
        (acc_segment_indices current_chunk ++ [idx])%list |}).

(** The loop over [enumerate(segments)], from index [idx] on. *)
Fixpoint loop (segments : list merged_segment)
         (chunk_duration chunk_overlap : Q) (min_chunk_size : Z)
         (idx : nat) (rest : list merged_segment)
         (st : list accumulator * accumulator)
  : list accumulator * accumulator :=
  match rest with
  | [] => st
  | segment :: rest' =>
      loop segments chunk_duration chunk_overlap min_chunk_size (S idx)
           rest'
           (step segments chunk_duration chunk_overlap min_chunk_size
                 st idx segment)
  end.

(** The test of line 95 on the accumulator left by the loop. *)
Definition emits_final (min_chunk_size : Z) (current_chunk : accumulator)
  : bool :=
  nonempty (strip (acc_text current_chunk))
  && (min_chunk_size <=? len (acc_text current_chunk))%Z.

(** Lines 43-92: the chunks saved by the loop and the accumulator it
    leaves. *)
Definition run (segments : list merged_segment)
           (chunk_duration chunk_overlap : Q) (min_chunk_size : Z)
  : list accumulator * accumulator :=
  loop segments chunk_duration chunk_overlap min_chunk_size 0 segments
       ([], empty_accumulator).

(** Lines 43-97: the unformatted chunks. *)
Definition collect (segments : list merged_segment)
           (chunk_duration chunk_overlap : Q) (min_chunk_size : Z)
  : list accumulator :=
  let '(chunks, current_chunk) :=
    run segments chunk_duration chunk_overlap min_chunk_size in
  if emits_final min_chunk_size current_chunk
  then (chunks ++ [current_chunk])%list
  else chunks.

(** Lines 104-115. *)
Definition format_chunk (episode_name : string)
           (ic : nat * accumulator) : outcome chunk :=
  let '(i, c) := ic in
  ts_start <- timestamp_of (acc_start c) ;;
  ts_end <- timestamp_of (acc_end c) ;;
  match acc_start c, acc_end c with
  | Some s, Some e =>
      Returned {| chunk_id := i;
                  text := strip (acc_text c);
                  start := s;
                  end_ := e;
                  timestamp_start := ts_start;
                  timestamp_end := ts_end;
                  duration := round (e - s) 2;
                  speakers := acc_speakers c;
                  episode := episode_name;
                  num_segments := List.length (acc_segment_indices c) |}
  | _, _ => Raised TypeError
  end.

(** [enumerate(xs)] *)
Definition enumerate {A} (xs : list A) : list (nat * A) :=
  combine (seq 0 (List.length xs)) xs.

Definition chunk_transcript (transcript : merged_transcript)
           (chunk_duration chunk_overlap : option Q)
           (min_chunk_size : Z) : outcome (list chunk) :=
  let chunk_duration := or_else chunk_duration Config.CHUNK_DURATION in
  let chunk_overlap := or_else chunk_overlap Config.CHUNK_OVERLAP in
  let segments := get (mt_segments transcript) [] in
  let episode_name := get (mt_file transcript) "unknown"%string in
  match segments with
  | [] => Returned []
  | _ :: _ =>
      let chunks :=
        collect segments chunk_duration chunk_overlap min_chunk_size in
      traverse (format_chunk episode_name) (enumerate chunks)
  end.

(** ** [chunk_by_speaker_turns] *)

(** The [current_chunk] dictionary of the speaker-turn chunker; the
    ["episode"] key only exists in the dictionaries built at line 151. *)
Record turn : Type := {
  turn_text : string;
  turn_start : option Q;
  turn_end : option Q;
  turn_speaker : option string;
  turn_episode : option string
}.

Definition empty_turn : turn :=
  {| turn_text := EmptyString;
     turn_start := None;
     turn_end := None;
     turn_speaker := None;
     turn_episode := None |}.

(** A formatted speaker-turn chunk (lines 176-181). *)
Record turn_chunk : Type := {
  tc_text : string;
  tc_start : Q;
  tc_end : Q;
  tc_speaker : option string;
  tc_episode : option string;
  tc_chunk_id : nat;
  tc_timestamp_start : string;
  tc_timestamp_end : string;
  tc_duration : Q;
  tc_speakers : list (option string)
}.

(** [speaker != current_speaker] *)
Definition speaker_differs (speaker : string)
           (current_speaker : option string) : bool :=
  match current_speaker with
  | Some s => negb (String.eqb speaker s)
  | None => true
  end.

(** The test of lines 143-144. *)
Definition splits (max_turn_duration : Q) (current_speaker : option string)
           (current_chunk : turn) (speaker : string)
           (segment : merged_segment) : bool :=
  (speaker_differs speaker current_speaker
   && nonempty (turn_text current_chunk))
  || match turn_start current_chunk with
     | Some s => truthy s && ltb max_turn_duration (ms_end segment - s)
     | None => false
     end.

(** One iteration of the loop of lines 139-167, on the state
    [(chunks, current_speaker, current_chunk)]. *)
Definition turn_step (episode_name : string) (max_turn_duration : Q)
           (st : list turn * option string * turn)
           (segment : merged_segment)
  : list turn * option string * turn :=
  let '(chunks, current_speaker, current_chunk) := st in
  let speaker := speaker_of segment in
  if splits max_turn_duration current_speaker current_chunk speaker segment
  then
    let saved :=
      {| turn_text := turn_text current_chunk;
         turn_start := turn_start current_chunk;
         turn_end := Some (or_else (turn_end current_chunk)
                                   (ms_start segment));
         turn_speaker := turn_speaker current_chunk;
         turn_episode := turn_episode current_chunk |} in
    ((chunks ++ [saved])%list,
     Some speaker,
     {| turn_text := ms_text segment;
        turn_start := Some (ms_start segment);
        turn_end := Some (ms_end segment);
        turn_speaker := Some speaker;
        turn_episode := Some episode_name |})
  else
    let fresh := negb (nonempty (turn_text current_chunk)) in
    (chunks,
     (if fresh then Some speaker else current_speaker),
     {| turn_text := (turn_text current_chunk ++ " " ++ ms_text segment)%string;
        turn_start := if fresh then Some (ms_start segment)
                      else turn_start current_chunk;
        turn_end := Some (ms_end segment);
        turn_speaker := if fresh then Some speaker
                        else turn_speaker current_chunk;
        turn_episode := turn_episode current_chunk |}).

(** Lines 135-171: the unformatted chunks. *)
Definition collect_turns (episode_name : string) (max_turn_duration : Q)
           (segments : list merged_segment) : list turn :=
  let '(chunks, _, current_chunk) :=
    fold_left (turn_step episode_name max_turn_duration) segments
              ([], None, empty_turn) in
  if nonempty (strip (turn_text current_chunk))
  then (chunks ++ [current_chunk])%list
  else chunks.

(** Lines 177-181. *)
Definition format_turn (ic : nat * turn) : outcome turn_chunk :=
  let '(i, c) := ic in
  ts_start <- timestamp_of (turn_start c) ;;
  ts_end <- timestamp_of (turn_end c) ;;
  match turn_start c, turn_end c with
  | Some s, Some e =>
      Returned {| tc_text := turn_text c;
                  tc_start := s;
                  tc_end := e;
                  tc_speaker := turn_speaker c;
                  tc_episode := turn_episode c;
                  tc_chunk_id := i;
                  tc_timestamp_start := ts_start;
                  tc_timestamp_end := ts_end;
                  tc_duration := round (e - s) 2;
                  tc_speakers := [turn_speaker c] |}
  | _, _ => Raised TypeError
  end.

Definition chunk_by_speaker_turns (transcript : merged_transcript)
           (max_turn_duration : Q) : outcome (list turn_chunk) :=
  let segments := get (mt_segments transcript) [] in
  let episode_name := get (mt_file transcript) "unknown"%string in
  traverse format_turn
           (enumerate (collect_turns episode_name max_turn_duration
                                     segments)).

End Chunking.

(* ================================================================== *)
(** * Indexing ([src/database/indexing.py]) *)
(* ================================================================== *)

Module Indexing.
Import Py Helpers Fusion.

(** ** [create_chunks_with_accurate_timestamps] *)

(** The [current_chunk] dictionary (lines 38-43). *)
Record accumulator : Type := {
  acc_text : string;
  acc_start : option Q;
  acc_end : option Q;
  acc_speakers : list string
}.

Definition empty_accumulator : accumulator :=
  {| acc_text := EmptyString;
     acc_start := None;
     acc_end := None;
     acc_speakers := [] |}.

(** A formatted chunk (lines 88-97). *)
Record chunk : Type := {
  id : string;
  text : string;
  start : Q;
  end_ : Q;
  timestamp_start : string;
  timestamp_end : string;
  speakers : list string;
  episode : string
}.

(** The test of line 58. *)
Definition flushes (chunk_duration : Q) (chunk_start segment_end : Q)
           (current_text : string) : bool :=
  ltb chunk_duration (segment_end - chunk_start) && nonempty current_text.

(** One iteration of the loop of lines 45-76, on the state
    [(chunks, current_chunk)].  The segment's ["speaker"] is subscripted,
    so a segment without it raises. *)
Definition step (chunk_duration chunk_overlap : Q)
           (st : list accumulator * accumulator) (segment : merged_segment)
  : outcome (list accumulator * accumulator) :=
  let '(chunks, current_chunk) := st in
  let segment_start := ms_start segment in
  let segment_end := ms_end segment in
  let segment_text := ms_text segment in
  match ms_speaker segment with
  | None => Raised (KeyError "speaker")
  | Some segment_speaker =>
      (* lines 52-53 *)
      let chunk_start := get (acc_start current_chunk) segment_start in
      if flushes chunk_duration chunk_start segment_end
                 (acc_text current_chunk)
      then
        (* lines 60-71 *)
        let saved :=
          {| acc_text := acc_text current_chunk;
             acc_start := Some chunk_start;
             acc_end := Some segment_start;
             acc_speakers := acc_speakers current_chunk |} in
        let overlap_start := max 0 (segment_start - chunk_overlap) in
        Returned ((chunks ++ [saved])%list,
                  {| acc_text := segment_text;
                     acc_start := Some overlap_start;
                     acc_end := None;
                     acc_speakers := [segment_speaker] |})
      else
        (* lines 74-76 *)
        Returned (chunks,
                  {| acc_text :=
                       if nonempty (acc_text current_chunk)
                       then (acc_text current_chunk ++ " " ++ segment_text)%string
                       else segment_text;
                     acc_start := Some chunk_start;
                     acc_end := Some segment_end;
                     acc_speakers :=
                       set_add segment_speaker
                               (acc_speakers current_chunk) |})
  end.

(** The loop over the segments; the first exception ends it. *)
Fixpoint loop (chunk_duration chunk_overlap : Q)
         (rest : list merged_segment) (st : list accumulator * accumulator)
  : outcome (list accumulator * accumulator) :=
  match rest with
  | [] => Returned st
  | segment :: rest' =>
      st' <- step chunk_duration chunk_overlap st segment ;;
      loop chunk_duration chunk_overlap rest' st'
  end.

(** Lines 36-81: the unformatted chunks. *)
Definition collect (chunk_duration chunk_overlap : Q)
           (segments : list merged_segment) : outcome (list accumulator) :=
  '(chunks, current_chunk) <-
    loop chunk_duration chunk_overlap segments ([], empty_accumulator) ;;
  Returned (if nonempty (acc_text current_chunk)
            then (chunks ++ [current_chunk])%list
            else chunks).

(** [round(d[key], 3)] on a value that may still be [None], which is a
    [TypeError]. *)
Definition rounded (t : option Q) : outcome Q :=
  match t with
  | Some q => Returned (round q 3)
  | None => Raised TypeError
  end.

(** Lines 88-97, in the order in which the dictionary display evaluates its
    values. *)
Definition format_chunk (file : option string) (ic : nat * accumulator)
  : outcome chunk :=
  let '(i, c) := ic in
  match file with
  | None => Raised (KeyError "file")
  | Some file =>
      s <- rounded (acc_start c) ;;
      e <- rounded (acc_end c) ;;
      ts_start <- Chunking.timestamp_of (acc_start c) ;;
      ts_end <- Chunking.timestamp_of (acc_end c) ;;
      Returned {| id := (file ++ "_" ++ decimal (Z.of_nat i))%string;
                  text := strip (acc_text c);
                  start := s;
                  end_ := e;
                  timestamp_start := ts_start;
                  timestamp_end := ts_end;
                  speakers := acc_speakers c;
                  episode := file |}
  end.

Definition create_chunks_with_accurate_timestamps
           (transcript : merged_transcript)
           (chunk_duration chunk_overlap : option Q) : outcome (list chunk) :=
  let chunk_duration := or_else chunk_duration Config.CHUNK_DURATION in
  let chunk_overlap := or_else chunk_overlap Config.CHUNK_OVERLAP in
  match mt_segments transcript with
  | None => Raised (KeyError "segments")
  | Some segments =>
      chunks <- collect chunk_duration chunk_overlap segments ;;
      traverse (format_chunk (mt_file transcript))
               (Chunking.enumerate chunks)
  end.

(** ** [index_transcript] and [batch_index_transcripts] *)

(** The metadata stored with a chunk (lines 132-140).  The retrieval side
    reads its keys with [.get], so they are optional. *)
Record metadata : Type := {
  md_episode : option string;
  md_timestamp_start : option string;
  md_timestamp_end : option string;
  md_start_seconds : option Q;
  md_end_seconds : option Q;
  md_speakers : option string;
  md_num_speakers : option Z
}.

Definition chunk_metadata (c : chunk) : metadata :=
  {| md_episode := Some (episode c);
     md_timestamp_start := Some (timestamp_start c);
     md_timestamp_end := Some (timestamp_end c);
     md_start_seconds := Some (start c);
     md_end_seconds := Some (end_ c);
     md_speakers := Some (join "," (speakers c));
     md_num_speakers := Some (Z.of_nat (List.length (speakers c))) |}.

(** The statistics that [batch_index_transcripts] returns; the
    ["failed_files"] key is absent from the early return of line 178. *)
Record stats : Type := {
  st_total : Z;
  st_success : Z;
  st_failed : Z;
  st_total_chunks : Z;
  st_failed_files : option (list string)
}.

Section Store.

(** The vector store and the file system are taken as given: functions on
    an abstract world that may raise. *)
Context {world collection : Type}.
Variable initialize_collection :
  option string -> world -> outcome collection * world.
Variable collection_add :
  collection -> list string -> list string -> list metadata -> world
  -> outcome unit * world.
Variable load_json : string -> world -> outcome merged_transcript * world.
(** [list(transcript_dir.glob("*.json"))] and [transcript_file.name]. *)
Variable glob_json : option string -> world -> list string.
Variable name_of : string -> string.

Definition index_transcript (transcript : merged_transcript)
           (collection_name : option string) (w : world)
  : outcome Z * world :=
  match initialize_collection collection_name w with
  | (Raised e, w) => (Raised e, w)
  | (Returned the_collection, w) =>
      match mt_file transcript with
      | None => (Raised (KeyError "file"), w)
      | Some episode_name =>
          match create_chunks_with_accurate_timestamps transcript None None
          with
          | Raised e => (Raised e, w)
          | Returned [] => (Returned 0%Z, w)
          | Returned chunks =>
              let ids := map id chunks in
              let documents := map text chunks in
              let metadatas := map chunk_metadata chunks in
              match collection_add the_collection ids documents metadatas w
              with
              | (Returned _, w) =>
                  (Returned (Z.of_nat (List.length chunks)), w)
              | (Raised e, w) => (Raised e, w)
              end
          end
      end
  end.

(** One iteration of the loop of lines 186-198, on the state
    [(success_count, total_chunks, failed_files)] and the world. *)
Definition batch_step (collection_name : option string)
           (st : Z * Z * list string * world) (transcript_file : string)
  : Z * Z * list string * world :=
  let '(success_count, total_chunks, failed_files, w) := st in
  match load_json transcript_file w with
  | (Raised _, w) =>
      (success_count, total_chunks,
       (failed_files ++ [name_of transcript_file])%list, w)
  | (Returned transcript, w) =>
      match index_transcript transcript collection_name w with
      | (Raised _, w) =>
          (success_count, total_chunks,
           (failed_files ++ [name_of transcript_file])%list, w)
      | (Returned chunks_indexed, w) =>
          ((success_count + 1)%Z, (total_chunks + chunks_indexed)%Z,
           failed_files, w)
      end
  end.

Definition batch_index_transcripts (transcript_dir collection_name
                                     : option string) (w : world)
  : outcome stats * world :=
  match initialize_collection collection_name w with
  | (Raised e, w) => (Raised e, w)
  | (Returned _, w) =>
      let transcript_files := glob_json transcript_dir w in
      match transcript_files with
      | [] =>
          (Returned {| st_total := 0; st_success := 0; st_failed := 0;
                       st_total_chunks := 0; st_failed_files := None |}, w)
      | _ :: _ =>
          let '(success_count, total_chunks, failed_files, w) :=
            fold_left (batch_step collection_name) transcript_files
                      (0%Z, 0%Z, [], w) in
          (Returned
             {| st_total := Z.of_nat (List.length transcript_files);
                st_success := success_count;
                st_failed := Z.of_nat (List.length failed_files);
                st_total_chunks := total_chunks;
                st_failed_files := Some failed_files |}, w)
      end
  end.

End Store.

End Indexing.

(* ================================================================== *)
(** * Retrieval ([src/rag/retrieval.py]) *)
(* ================================================================== *)

Module Retrieval.
Import Py Helpers Indexing.

(** One formatted search result (lines 59-68). *)
Record result : Type := {
  r_id : string;
  r_text : string;
  r_metadata : metadata;
  r_similarity_score : Q;
  r_episode : string;
  r_timestamp_start : string;
  r_timestamp_end : string;
  r_speakers : list string
}.

(** The body of the loop of lines 58-69, on the identifier, document,
    metadata and distance of one hit. *)
Definition format_result (hit_id document : string) (md : metadata)
           (distance : Q) : result :=
  {| r_id := hit_id;
     r_text := document;
     r_metadata := md;
     r_similarity_score := 1 - distance;
     r_episode := get (md_episode md) "unknown"%string;
     r_timestamp_start := get (md_timestamp_start md) "00:00:00"%string;
     r_timestamp_end := get (md_timestamp_end md) "00:00:00"%string;
     r_speakers := split ","%char (get (md_speakers md) ""%string) |}.

End Retrieval.

(* ================================================================== *)
(** * Vocabulary of the properties *)
(* ================================================================== *)

Module Spec.
Import Py Fusion Chunking.

(** A relation holds between every element of a list and its
    successor. *)
Fixpoint adjacent {A} (R : A -> A -> Prop) (l : list A) : Prop :=
  match l with
  | a :: (b :: _) as tl => R a b /\ adjacent R tl
  | _ => True
  end.

(** [a] starts strictly before the instant [t]. *)
Definition starts_before (a : accumulator) (t : Q) : Prop :=
  exists x, acc_start a = Some x /\ x < t.

(** [a] starts strictly before [b] does. *)
Definition precedes (a b : accumulator) : Prop :=
  exists y, acc_start b = Some y /\ starts_before a y.


(** The accumulator has a start and an end. *)
Definition windowed (a : accumulator) : Prop :=
  (exists x, acc_start a = Some x) /\ (exists y, acc_end a = Some y).

(** State of the loop: every saved chunk starts before the accumulator does, and the saved
    chunks start one after the other. *)
Definition ordered_state (st : list accumulator * accumulator) : Prop :=
  exists s,
    acc_start (snd st) = Some s
    /\ (forall a, In a (fst st) -> starts_before a s)
    /\ adjacent precedes (fst st).


(** A formatted chunk carries the window, the trimmed text and the
    speakers of the accumulator it was made from. *)
Definition formats (a : accumulator) (c : chunk) : Prop :=
  acc_start a = Some (start c)
  /\ acc_end a = Some (end_ c)
  /\ text c = strip (acc_text a)
  /\ speakers c = acc_speakers a
  /\ num_segments c = List.length (acc_segment_indices a).

(** A double: a whole number of at most 53 bits times a power of two no
    smaller than [2 ** -1074]. *)
Definition is_double (q : Q) : Prop :=
  exists m k : Z,
    (Z.abs m <= 2 ^ 53)%Z /\ (-1074 <= k)%Z /\ q == inject_Z m * pow2 k.

(** The text has a character that [strip] keeps. *)
Definition has_nonspace (s : string) : bool :=
  existsb (fun ch => negb (isspace ch)) (chars s).

(** The last element of a list. *)
Definition last_error {A} (l : list A) : option A :=
  hd_error (rev l).

(** A number of seconds that [timedelta] accepts without overflow: one
    second less than 10^9 days. *)
Definition MAX_SECONDS : Q := 86399999999999.

(** The window of an accumulator, where set, is within that range. *)
Definition in_range (a : accumulator) : Prop :=
  (forall x, acc_start a = Some x -> x <= MAX_SECONDS)
  /\ (forall y, acc_end a = Some y -> y <= MAX_SECONDS).

(** A segment from which the chunker derives times within that range. *)
Definition segment_in_range (chunk_overlap : Q) (seg : merged_segment)
  : Prop :=
  ms_start seg <= MAX_SECONDS
  /\ ms_end seg <= MAX_SECONDS
  /\ ms_end seg - chunk_overlap <= MAX_SECONDS.


(** A turn that has been started (it has a start time or some text). *)
Definition started (c : turn) : Prop :=
  (exists x, turn_start c = Some x) \/ nonempty (turn_text c) = true.

(** State of the speaker-turn loop: the saved turns are labelled and have
    a window within range; so has the current turn once it is started. *)
Definition turn_ready (c : turn) : Prop :=
  (exists x, turn_start c = Some x /\ x <= MAX_SECONDS)
  /\ (exists y, turn_end c = Some y /\ y <= MAX_SECONDS).


Definition turn_range_state (st : list turn * option string * turn)
  : Prop :=
  let '(chunks, _, current_chunk) := st in
  Forall turn_ready chunks
  /\ (started current_chunk -> turn_ready current_chunk).


(** *** Indexing *)




(** State of the indexing loop: the saved chunks have a speaker and no
    speaker twice; so has the accumulator, once it has text or a start. *)
Definition has_speakers (a : Indexing.accumulator) : Prop :=
  Indexing.acc_speakers a <> [] /\ NoDup (Indexing.acc_speakers a).

Definition speakers_state
           (st : list Indexing.accumulator * Indexing.accumulator) : Prop :=
  Forall has_speakers (fst st)
  /\ NoDup (Indexing.acc_speakers (snd st))
  /\ (nonempty (Indexing.acc_text (snd st)) = true ->
      Indexing.acc_speakers (snd st) <> []).

(** State of the indexing loop: every saved chunk starts at a non-negative
    time, and so does the accumulator once it has a start. *)
Definition nonneg_state
           (st : list Indexing.accumulator * Indexing.accumulator) : Prop :=
  Forall (fun a => forall x, Indexing.acc_start a = Some x -> 0 <= x)
         (fst st)
  /\ (forall x, Indexing.acc_start (snd st) = Some x -> 0 <= x).

(** *** Duration-based chunker: windows and counts *)

(** The segments end one after the other, none before the instant [t]. *)
Fixpoint ends_from (t : Q) (segments : list merged_segment) : Prop :=
  match segments with
  | [] => True
  | seg :: rest => t <= ms_end seg /\ ends_from (ms_end seg) rest
  end.

(** An accumulator that starts no later than it ends. *)
Definition well_formed (a : accumulator) : Prop :=
  exists s e, acc_start a = Some s /\ acc_end a = Some e /\ s <= e.

(** State of the loop: the saved chunks and the accumulator are well
    formed. *)
Definition window_state (st : list accumulator * accumulator) : Prop :=
  Forall well_formed (fst st) /\ well_formed (snd st).


(** *** Speaker-turn chunker *)

(** State of the speaker-turn loop on one speaker's segments once the first
    of them, starting at zero, has been read. *)
Definition unsplit (label : string)
           (st : list turn * option string * turn) : Prop :=
  let '(chunks, current_speaker, current_chunk) := st in
  chunks = []
  /\ current_speaker = Some label
  /\ (exists s, turn_start current_chunk = Some s /\ truthy s = false)
  /\ nonempty (turn_text current_chunk) = true.

(** What the round trip needs of a two-digit field: no separator in it,
    and [int] reads the number back. *)
Definition two_digits_ok (n : Z) : bool :=
  let s := Helpers.format_0d 2 n in
  negb (Helpers.contains ":"%char s)
  && negb (Helpers.contains "."%char s)
  && match Helpers.int_of_string s with
     | Returned v => (v =? n)%Z
     | Raised _ => false
     end.

(** What the round trip needs of the millisecond field: no dot in it, and
    [float] reads it back as so many thousandths. *)
Definition three_digits_ok (n : Z) : bool :=
  let s := Helpers.format_0d 3 n in
  negb (Helpers.contains "."%char s)
  && match Helpers.float_of_fraction s with
     | Returned q => (Qnum q =? n)%Z && (Qden q =? 1000)%positive
     | Raised _ => false
     end.

(** The integers from 0 up to, not including, [n]. *)
Definition below (n : nat) : list Z := map Z.of_nat (seq 0 n).

End Spec.

(* ================================================================== *)
(** * Sample inputs *)
(* ================================================================== *)

Module Samples.
Import Py Fusion Chunking.

Definition segment (s e : Q) (t speaker : string) : merged_segment :=
  {| ms_start := s;
     ms_end := e;
     ms_text := t;
     ms_speaker := Some speaker;
     ms_words := None |}.

Definition episode (segments : list merged_segment) : merged_transcript :=
  {| mt_file := Some "episode.mp3"%string;
     mt_language := "en"%string;
     mt_num_speakers := 2;
     mt_speakers := ["SPEAKER_00"; "SPEAKER_01"]%string;
     mt_segments := Some segments |}.

(** A sentence of 50 characters. *)
Definition sentence : string :=
  "The quick brown fox jumps over the lazy dog again.".

(** Two segments of two seconds each, 50 characters of text each. *)
Definition two_sentences : merged_transcript :=
  episode [segment 0 2 sentence "SPEAKER_00";
           segment 2 4 sentence "SPEAKER_01"].



(** The no-break space U+00A0, and one segment whose text is that
    character alone. *)
Definition no_break_space : string :=
  String "194"%char (String "160"%char EmptyString).

Definition blank : merged_transcript :=
  episode [segment 0 1 no_break_space "SPEAKER_00"].

(** One segment with a text of 22 characters, 66 bytes in UTF-8. *)
Definition konnichiwa : string :=
  "こんにちは、世界。これは日本語のテストです。".

Definition aisatsu : merged_transcript :=
  episode [segment 0 1 konnichiwa "SPEAKER_00"].

(** The doubles nearest to 0.1 and 100.1, and two speakers whose overlaps
    with the query [0, 200] are 100.0 both once the difference is rounded:
    exactly, the first one falls short of 100 by less than [10 ** -14]. *)
Definition tenth : Q := to_double (1 # 10).
Definition hundred_and_tenth : Q := to_double (1001 # 10).

Definition speaker_a : speaker_segment :=
  {| sp_start := tenth; sp_end := hundred_and_tenth; sp_speaker := "A" |}.

Definition speaker_b : speaker_segment :=
  {| sp_start := 0; sp_end := 100; sp_speaker := "B" |}.

(** The three segments of the end-to-end scenario. *)
Definition conversation : transcription :=
  {| tr_file := "episode.mp3"%string;
     tr_language := "en"%string;
     tr_segments :=
       Some [ {| ts_start := 0; ts_end := 5;
                 ts_text := "Hello world"; ts_words := None |};
              {| ts_start := 5; ts_end := 10;
                 ts_text := "How are you"; ts_words := None |};
              {| ts_start := 10; ts_end := 15;
                 ts_text := "Fine thanks"; ts_words := None |} ] |}.

Definition two_speakers : diarization :=
  {| di_file := "episode.mp3"%string;
     di_num_speakers := 2;
     di_speakers := ["SPEAKER_00"; "SPEAKER_01"]%string;
     di_segments :=
       Some [ {| sp_start := 0; sp_end := 7;
                 sp_speaker := "SPEAKER_00" |};
              {| sp_start := 7; sp_end := 15;
                 sp_speaker := "SPEAKER_01" |} ] |}.

(** A transcription and a diarization without their ["segments"] key. *)
Definition no_transcript : transcription :=
  {| tr_file := "episode.mp3"%string;
     tr_language := "en"%string;
     tr_segments := None |}.

Definition no_diarization : diarization :=
  {| di_file := "episode.mp3"%string;
     di_num_speakers := 0;
     di_speakers := [];
     di_segments := None |}.

(** A world in which saving does nothing and never fails. *)
Definition save_nothing (_ : merged_transcript) (_ : string) (w : unit)
  : outcome unit * unit :=
  (Returned tt, w).

(** What the chunkers return on [two_sentences]. *)
Definition returned {A} (o : outcome (list A)) : list A :=
  match o with
  | Returned l => l
  | Raised _ => []
  end.

Definition two_sentences_chunks : list chunk :=
  Eval vm_compute in
    returned (chunk_transcript two_sentences (Some 3) (Some 1) 50).


(** *** Inputs of the indexing side *)


(** Three segments that the indexing chunker cuts in two chunks. *)
Definition three_parts : merged_transcript :=
  episode [segment 0 40 "a" "SPEAKER_00";
           segment 40 50 "b" "SPEAKER_01";
           segment 50 60 "c" "SPEAKER_01"].

Definition three_parts_chunks : list Indexing.chunk :=
  Eval vm_compute in
    returned (Indexing.create_chunks_with_accurate_timestamps
                three_parts None None).

(** A segment without its ["speaker"] key. *)
Definition anonymous_segment : merged_segment :=
  {| ms_start := 1;
     ms_end := 2;
     ms_text := "b";
     ms_speaker := None;
     ms_words := None |}.

Definition partly_anonymous : merged_transcript :=
  episode [segment 0 1 "a" "SPEAKER_00"; anonymous_segment].

(** One speaker talking from time 0 on, for longer than a turn. *)
Definition monologue : merged_transcript :=
  episode [segment 0 50 "a" "SPEAKER_00";
           segment 50 200 "b" "SPEAKER_00"].

Definition monologue_turns : list turn_chunk :=
  Eval vm_compute in returned (chunk_by_speaker_turns monologue 1).

(** A store that accepts everything, and a directory of two transcript
    files of which only the first can be loaded. *)
Definition open_collection (_ : option string) (w : unit)
  : outcome unit * unit :=
  (Returned tt, w).

Definition add_anything (_ : unit) (_ _ : list string)
           (_ : list Indexing.metadata) (w : unit) : outcome unit * unit :=
  (Returned tt, w).

Definition load_first (file : string) (w : unit)
  : outcome merged_transcript * unit :=
  if String.eqb file "a.json" then (Returned three_parts, w)
  else (Raised ValueError, w).

Definition two_files (_ : option string) (_ : unit) : list string :=
  ["a.json"; "b.json"]%string.

End Samples.

(* ================================================================== *)
(** * Properties *)
(* ================================================================== *)

(** ** Python primitives *)

Section PyFacts.
Import Py.

Lemma ltb_lt (a b : Q) : ltb a b = true <-> a < b.
Proof. unfold ltb, Qlt. apply Z.ltb_lt. Qed.

Lemma ltb_ge (a b : Q) : ltb a b = false <-> b <= a.
Proof. unfold ltb, Qle. rewrite Z.ltb_ge. reflexivity. Qed.

Lemma leb_le (a b : Q) : leb a b = true <-> a <= b.
Proof. apply Qle_bool_iff. Qed.

Lemma max_eq_Qmax (a b : Q) : max a b == Qmax a b.
Proof.
  unfold max. destruct (ltb a b) eqn:E.
  - apply ltb_lt in E. symmetry. apply Q.max_r. lra.
  - apply ltb_ge in E. symmetry. apply Q.max_l. exact E.
Qed.

Lemma min_eq_Qmin (a b : Q) : min a b == Qmin a b.
Proof.
  unfold min. destruct (ltb b a) eqn:E.
  - apply ltb_lt in E. symmetry. apply Q.min_r. lra.
  - apply ltb_ge in E. symmetry. apply Q.min_l. exact E.
Qed.

Lemma max_0_nonneg (x : Q) : 0 <= max 0 x.
Proof.
  unfold max. destruct (ltb 0 x) eqn:E.
  - apply ltb_lt in E. lra.
  - lra.
Qed.

Lemma truthy_false (q : Q) : truthy q = false <-> q == 0.
Proof.
  unfold truthy. rewrite negb_false_iff. apply Qeq_bool_iff.
Qed.

Lemma or_else_falsy (a : option Q) (b : Q) :
  truthy_opt a = false -> or_else a b = b.
Proof.
  destruct a as [q|]; simpl; [|reflexivity].
  intros ->. reflexivity.
Qed.

Lemma or_else_truthy (a : option Q) (b : Q) :
  truthy b = true -> truthy (or_else a b) = true.
Proof.
  intros Hb. destruct a as [q|]; simpl; [|exact Hb].
  destruct (truthy q) eqn:E; assumption.
Qed.

End PyFacts.

(** ** Overlap matcher *)

Section FindSpeaker.
Import Py Fusion.

Variables segment_start segment_end : Q.

Let ov := overlap segment_start segment_end.
Let run := fold_left (find_step segment_start segment_end).

Lemma overlap_nonneg (seg : speaker_segment) : 0 <= ov seg.
Proof. apply max_0_nonneg. Qed.

(** The value computed at lines 34-36: the difference is the one of two
    floats, rounded to the nearest double. *)
Lemma overlap_value (seg : speaker_segment) :
  ov seg =
  max 0 (float_sub (min segment_end (sp_end seg))
                   (max segment_start (sp_start seg))).
Proof. reflexivity. Qed.

(** Invariant of the loop: started from [(m, b)], it either keeps the
    state because nothing beats [m], or it ends on the first interval whose
    overlap is maximal and above [m]. *)
Lemma find_loop_spec (segs : list speaker_segment) :
  forall (m : Q) (b : string),
    ((forall x, In x segs -> ov x <= m) /\ run segs (m, b) = (m, b))
    \/
    (exists pre seg post,
        segs = pre ++ seg :: post
        /\ m < ov seg
        /\ (forall x, In x pre -> ov x < ov seg)
        /\ (forall x, In x post -> ov x <= ov seg)
        /\ run segs (m, b) = (ov seg, sp_speaker seg)).
Proof.
  induction segs as [|seg rest IH]; intros m b.
  - left. split; [intros x []|reflexivity].
  - unfold run in *. cbn [fold_left].
    change (find_step segment_start segment_end (m, b) seg)
      with (if ltb m (ov seg) then (ov seg, sp_speaker seg) else (m, b)).
    destruct (ltb m (ov seg)) eqn:E.
    + apply ltb_lt in E.
      destruct (IH (ov seg) (sp_speaker seg))
        as [[Hall Hrun] | (pre & s' & post & -> & Hlt & Hpre & Hpost & Hrun)].
      * right. exists [], seg, rest. cbn [app].
        repeat split; try assumption. intros x [].
      * right. exists (seg :: pre), s', post. cbn [app].
        repeat split; try assumption.
        -- lra.
        -- intros x [<- | Hx]; [assumption | now apply Hpre].
    + apply ltb_ge in E.
      destruct (IH m b)
        as [[Hall Hrun] | (pre & s' & post & -> & Hlt & Hpre & Hpost & Hrun)].
      * left. split; [|assumption].
        intros x [<- | Hx]; [assumption | now apply Hall].
      * right. exists (seg :: pre), s', post. cbn [app].
        repeat split; try assumption.
        intros x [<- | Hx]; [lra | now apply Hpre].
Qed.

End FindSpeaker.

(** C1.  [find_speaker_for_segment] on a query interval [s, e] and any list
    of speaker intervals: the overlap of a candidate is
    [max(0, min(e, end) - max(s, start))], the difference being the float
    subtraction of line 36, rounded to the nearest double; if every
    candidate has overlap 0 (in particular if there is none) the result is
    ["UNKNOWN"]; otherwise the result is the label of the first candidate,
    in list order, whose overlap is the greatest: the candidates before it
    have a strictly smaller overlap and those after it a smaller or equal
    one. *)
Theorem find_speaker_for_segment_first_greatest_overlap
        (s e : Q) (speaker_segments : list Fusion.speaker_segment) :
  (forall seg,
      Fusion.overlap s e seg =
      Py.max 0 (Py.float_sub (Py.min e (Fusion.sp_end seg))
                             (Py.max s (Fusion.sp_start seg))))
  /\
  (((forall seg, In seg speaker_segments -> Fusion.overlap s e seg == 0)
    /\ Fusion.find_speaker_for_segment s e speaker_segments
       = "UNKNOWN"%string)
   \/
   (exists pre best post,
       speaker_segments = pre ++ best :: post
       /\ 0 < Fusion.overlap s e best
       /\ (forall seg, In seg pre ->
                       Fusion.overlap s e seg < Fusion.overlap s e best)
       /\ (forall seg, In seg post ->
                       Fusion.overlap s e seg <= Fusion.overlap s e best)
       /\ Fusion.find_speaker_for_segment s e speaker_segments
          = Fusion.sp_speaker best)).
Proof.
  split; [apply overlap_value|].
  unfold Fusion.find_speaker_for_segment.
  destruct (find_loop_spec s e speaker_segments 0 "UNKNOWN"%string)
    as [[Hall Hrun] | (pre & best & post & Hsplit & Hlt & Hpre & Hpost & Hrun)].
  - left. rewrite Hrun. split; [|reflexivity].
    intros seg Hin. apply Qle_antisym.
    + now apply Hall.
    + apply overlap_nonneg.
  - right. exists pre, best, post. rewrite Hrun.
    apply ltb_lt in Hlt as Hb. rewrite Hb.
    repeat split; assumption.
Qed.

(** The examples of the specification: no overlap gives ["UNKNOWN"], a tie
    keeps the first candidate, and the end-to-end scenario assigns the
    second segment to the speaker with the longer overlap. *)
Example find_speaker_no_overlap :
  Fusion.find_speaker_for_segment 10 20
    [Fusion.Build_speaker_segment 0 5 "A"] = "UNKNOWN"%string.
Proof. reflexivity. Qed.

Example find_speaker_tie_keeps_first :
  Fusion.find_speaker_for_segment 0 10
    [Fusion.Build_speaker_segment 0 5 "A";
     Fusion.Build_speaker_segment 5 10 "B"] = "A"%string.
Proof. reflexivity. Qed.

Example find_speaker_longer_overlap :
  Fusion.find_speaker_for_segment 5 10
    [Fusion.Build_speaker_segment 0 7 "SPEAKER_00";
     Fusion.Build_speaker_segment 7 15 "SPEAKER_01"] = "SPEAKER_01"%string.
Proof. reflexivity. Qed.

(** The difference of line 36 is rounded: [100.1 - 0.1] is [100.0] as a
    float although the exact difference of the two doubles is smaller, so
    the two speakers tie and the first one listed wins. *)
Example find_speaker_rounded_tie :
  Samples.hundred_and_tenth - Samples.tenth < 100
  /\ Fusion.overlap 0 200 Samples.speaker_a == 100
  /\ Fusion.overlap 0 200 Samples.speaker_b == 100
  /\ Fusion.find_speaker_for_segment 0 200
       [Samples.speaker_a; Samples.speaker_b] = "A"%string
  /\ Fusion.find_speaker_for_segment 0 200
       [Samples.speaker_b; Samples.speaker_a] = "B"%string.
Proof. repeat split; vm_compute; reflexivity. Qed.

(** ** Fusion *)

(** C2.  When both inputs carry their ["segments"] key, the two-argument
    call returns a merged transcript and leaves the world alone; its segment
    list has the length of the transcript's and its i-th element is the
    i-th transcript segment merged against the diarization intervals. *)
Theorem merge_is_one_to_one
        (world : Type)
        (save_json : Fusion.merged_transcript -> string -> world
                     -> Py.outcome unit * world)
        (T : Fusion.transcription) (D : Fusion.diarization)
        (transcript_segments : list Fusion.transcript_segment)
        (speaker_segments : list Fusion.speaker_segment)
        (w : world) :
  Fusion.tr_segments T = Some transcript_segments ->
  Fusion.di_segments D = Some speaker_segments ->
  exists merged merged_segments,
    Fusion.merge_transcription_and_diarization save_json T D None w
    = (Py.Returned merged, w)
    /\ Fusion.mt_segments merged = Some merged_segments
    /\ List.length merged_segments = List.length transcript_segments
    /\ forall i,
        nth_error merged_segments i
        = option_map (Fusion.merge_segment speaker_segments)
                     (nth_error transcript_segments i).
Proof.
  intros HT HD.
  unfold Fusion.merge_transcription_and_diarization. rewrite HD, HT.
  eexists. eexists. split; [reflexivity|]. cbn.
  split; [reflexivity|]. split.
  - apply length_map.
  - intros i. apply nth_error_map.
Qed.

(** With an output path the same transcript is returned after it has been
    handed to [save_json], unless saving raises. *)
Lemma merge_with_output_path
      (world : Type)
      (save_json : Fusion.merged_transcript -> string -> world
                   -> Py.outcome unit * world)
      (T : Fusion.transcription) (D : Fusion.diarization)
      (path : string) (w w' : world) (merged : Fusion.merged_transcript) :
  Fusion.merge_transcription_and_diarization save_json T D None w
  = (Py.Returned merged, w) ->
  Py.nonempty path = true ->
  save_json merged path w = (Py.Returned tt, w') ->
  Fusion.merge_transcription_and_diarization save_json T D (Some path) w
  = (Py.Returned merged, w').
Proof.
  unfold Fusion.merge_transcription_and_diarization.
  destruct (Fusion.di_segments D); [|discriminate].
  destruct (Fusion.tr_segments T); [|discriminate].
  intros H Hp Hs. inversion H; subst. rewrite Hp, Hs. reflexivity.
Qed.

(** C8.  When the ["segments"] key is missing from the transcription or
    from the diarization, the call raises [KeyError("segments")]: nothing
    is returned and nothing is saved, whatever the output path. *)
Theorem merge_missing_segments_raises
        (world : Type)
        (save_json : Fusion.merged_transcript -> string -> world
                     -> Py.outcome unit * world)
        (T : Fusion.transcription) (D : Fusion.diarization)
        (output_path : option string) (w : world) :
  Fusion.tr_segments T = None \/ Fusion.di_segments D = None ->
  Fusion.merge_transcription_and_diarization save_json T D output_path w
  = (Py.Raised (Py.KeyError "segments"), w).
Proof.
  unfold Fusion.merge_transcription_and_diarization.
  intros [HT | HD].
  - rewrite HT. destruct (Fusion.di_segments D); reflexivity.
  - rewrite HD. reflexivity.
Qed.

(** ** Duration-based chunker: arguments and empty input *)

(** C9.  A transcript without a ["segments"] key, or with an empty segment
    list, is chunked to the empty list; nothing is raised. *)
Theorem chunk_transcript_empty
        (transcript : Fusion.merged_transcript)
        (chunk_duration chunk_overlap : option Q) (min_chunk_size : Z) :
  Fusion.mt_segments transcript = None
  \/ Fusion.mt_segments transcript = Some [] ->
  Chunking.chunk_transcript transcript chunk_duration chunk_overlap
                            min_chunk_size
  = Py.Returned [].
Proof.
  unfold Chunking.chunk_transcript.
  intros [-> | ->]; reflexivity.
Qed.

(** C10.  A falsy [chunk_duration] ([None] or zero) gives the result of a
    call with [Config.CHUNK_DURATION], a falsy [chunk_overlap] the result of
    a call with [Config.CHUNK_OVERLAP]; the values the chunker works with are
    [chunk_duration or Config.CHUNK_DURATION] and
    [chunk_overlap or Config.CHUNK_OVERLAP], and neither is ever zero. *)
Theorem chunk_transcript_falsy_arguments
        (transcript : Fusion.merged_transcript)
        (chunk_duration chunk_overlap : option Q) (min_chunk_size : Z) :
  (Py.truthy_opt chunk_duration = false ->
   Chunking.chunk_transcript transcript chunk_duration chunk_overlap
                             min_chunk_size
   = Chunking.chunk_transcript transcript (Some Config.CHUNK_DURATION)
                               chunk_overlap min_chunk_size)
  /\
  (Py.truthy_opt chunk_overlap = false ->
   Chunking.chunk_transcript transcript chunk_duration chunk_overlap
                             min_chunk_size
   = Chunking.chunk_transcript transcript chunk_duration
                               (Some Config.CHUNK_OVERLAP) min_chunk_size)
  /\
  Chunking.chunk_transcript transcript chunk_duration chunk_overlap
                            min_chunk_size
  = Chunking.chunk_transcript
      transcript
      (Some (Py.or_else chunk_duration Config.CHUNK_DURATION))
      (Some (Py.or_else chunk_overlap Config.CHUNK_OVERLAP))
      min_chunk_size
  /\ ~ Py.or_else chunk_duration Config.CHUNK_DURATION == 0
  /\ ~ Py.or_else chunk_overlap Config.CHUNK_OVERLAP == 0.
Proof.
  assert (Hd : Py.truthy (Py.or_else chunk_duration Config.CHUNK_DURATION)
               = true) by (apply or_else_truthy; reflexivity).
  assert (Ho : Py.truthy (Py.or_else chunk_overlap Config.CHUNK_OVERLAP)
               = true) by (apply or_else_truthy; reflexivity).
  repeat split.
  - intros H. unfold Chunking.chunk_transcript.
    rewrite (or_else_falsy _ _ H). reflexivity.
  - intros H. unfold Chunking.chunk_transcript.
    rewrite (or_else_falsy _ _ H). reflexivity.
  - unfold Chunking.chunk_transcript. cbn [Py.or_else].
    rewrite Hd, Ho. reflexivity.
  - intros E. apply truthy_false in E. congruence.
  - intros E. apply truthy_false in E. congruence.
Qed.

(** ** Lists *)

Section ListFacts.
Import Py Spec.
Context {A B : Type}.

Lemma adjacent_snoc (R : A -> A -> Prop) (l : list A) (b : A) :
  adjacent R l -> (forall a, In a l -> R a b) -> adjacent R (l ++ [b]).
Proof.
  induction l as [|a [|a' l'] IH]; intros Hadj Hall.
  - exact I.
  - cbn. split; [apply Hall; now left | exact I].
  - destruct Hadj as [Haa' Hadj]. split; [exact Haa'|].
    apply IH; [exact Hadj|]. intros x Hx. apply Hall. now right.
Qed.

Lemma adjacent_nth (R : A -> A -> Prop) (l : list A) :
  adjacent R l ->
  forall i a b,
    nth_error l i = Some a -> nth_error l (S i) = Some b -> R a b.
Proof.
  induction l as [|x [|y l'] IH]; intros Hadj i a b Ha Hb.
  - destruct i; discriminate.
  - destruct i as [|[|i]]; discriminate.
  - destruct Hadj as [Hxy Hadj]. destruct i as [|i].
    + cbn in Ha, Hb. congruence.
    + apply (IH Hadj i); assumption.
Qed.

Lemma adjacent_Forall2 (R : A -> A -> Prop) (R' : B -> B -> Prop)
      (F : A -> B -> Prop) :
  (forall a a' b b', F a b -> F a' b' -> R a a' -> R' b b') ->
  forall l l', Forall2 F l l' -> adjacent R l -> adjacent R' l'.
Proof.
  intros Hmono l l' H. induction H as [|a b l l' Hab Hrest IH].
  - intros _. exact I.
  - destruct Hrest as [|a' b' l0 l0' Hab' Hrest'].
    + intros _. exact I.
    + intros [Haa' Hadj]. split.
      * eapply Hmono; eassumption.
      * apply IH. exact Hadj.
Qed.

Lemma traverse_Forall2 (f : A -> outcome B) (xs : list A) :
  forall ys,
    traverse f xs = Returned ys ->
    Forall2 (fun x y => f x = Returned y) xs ys.
Proof.
  induction xs as [|x xs IH]; cbn; intros ys H.
  - inversion H. constructor.
  - destruct (f x) as [y|e] eqn:Ef; cbn in H; [|discriminate].
    destruct (traverse f xs) as [ys'|e] eqn:Et; cbn in H; [|discriminate].
    inversion H; subst. constructor; [exact Ef | now apply IH].
Qed.

Lemma traverse_returns (f : A -> outcome B) (xs : list A) :
  (forall x, In x xs -> exists y, f x = Returned y) ->
  exists ys, traverse f xs = Returned ys.
Proof.
  induction xs as [|x xs IH]; cbn; intros H.
  - now exists [].
  - destruct (H x) as [y Hy]; [now left|]. rewrite Hy. cbn.
    destruct IH as [ys Hys]; [intros z Hz; apply H; now right|].
    rewrite Hys. cbn. now exists (y :: ys).
Qed.

Lemma last_error_snoc (l : list A) (x : A) : last_error (l ++ [x]) = Some x.
Proof. unfold last_error. rewrite rev_app_distr. reflexivity. Qed.


End ListFacts.

(** ** Duration-based chunker: the loop *)

Section ChunkerLoop.
Import Py Fusion Chunking Spec.

Variable segments : list merged_segment.
Variables chunk_duration chunk_overlap : Q.
Variable min_chunk_size : Z.

Let step' := step segments chunk_duration chunk_overlap min_chunk_size.
Let loop' := loop segments chunk_duration chunk_overlap min_chunk_size.

(** A property that every iteration keeps holds after the loop. *)
Lemma loop_preserves (P : list accumulator * accumulator -> Prop)
      (rest : list merged_segment) :
  (forall st idx seg, In seg rest -> P st -> P (step' st idx seg)) ->
  forall idx st, P st -> P (loop' idx rest st).
Proof.
  induction rest as [|seg rest IH]; intros Hstep idx st H.
  - exact H.
  - cbn. apply IH.
    + intros st' idx' seg' Hin. apply Hstep. now right.
    + apply Hstep; [now left | exact H].
Qed.


(** On a non-empty list the run is the first iteration followed by the
    loop on the other segments. *)
Lemma run_first_step :
  segments <> [] ->
  exists seg rest,
    segments = seg :: rest
    /\ run segments chunk_duration chunk_overlap min_chunk_size
       = loop' 1 rest (step' ([], empty_accumulator) 0 seg).
Proof.
  unfold run. generalize (@nil accumulator, empty_accumulator).
  assert (H : forall l st,
             l <> [] ->
             exists seg rest,
               l = seg :: rest
               /\ loop' 0 l st = loop' 1 rest (step' st 0 seg)).
  { intros [|seg rest] st Hl; [congruence|].
    exists seg, rest. split; reflexivity. }
  intros st Hne. apply H. exact Hne.
Qed.

(** After an iteration the accumulator ends where the segment ends and
    has a start. *)
Lemma step_end st idx seg :
  acc_end (snd (step' st idx seg)) = Some (ms_end seg).
Proof.
  unfold step', step. destruct st as [chunks cur].
  destruct (flushes _ _ _ _ _); reflexivity.
Qed.

Lemma step_start st idx seg :
  exists x, acc_start (snd (step' st idx seg)) = Some x.
Proof.
  unfold step', step. destruct st as [chunks cur].
  destruct (flushes _ _ _ _ _); cbn; eauto.
Qed.

Lemma step_windowed st idx seg :
  Forall windowed (fst st) ->
  Forall windowed (fst (step' st idx seg)).
Proof.
  unfold step', step. destruct st as [chunks cur]. cbn [fst].
  destruct (flushes _ _ _ _ _); cbn [fst]; intros H; [|exact H].
  apply Forall_app. split; [exact H|].
  constructor; [|constructor]. split; cbn; eauto.
Qed.

(** *** Time order *)

Hypothesis overlap_le_duration : chunk_overlap <= chunk_duration.

Lemma step_ordered st idx seg :
  ordered_state st -> ordered_state (step' st idx seg).
Proof.
  destruct st as [chunks cur]. intros (s & Hs & Hbefore & Hadj).
  cbn [fst snd] in *. unfold step', step, ordered_state.
  rewrite Hs. cbn [get].
  destruct (flushes _ _ _ _ _) eqn:F; cbn [fst snd acc_start].
  - apply andb_true_iff in F as [F _]. apply ltb_lt in F.
    exists (ms_end seg - chunk_overlap). split; [reflexivity|]. split.
    + intros a Ha. apply in_app_or in Ha as [Ha | [<- | []]].
      * destruct (Hbefore a Ha) as (x & Hx & Hlt).
        exists x. split; [exact Hx | lra].
      * exists s. split; [reflexivity | lra].
    + apply adjacent_snoc; [exact Hadj|].
      intros a Ha. exists s. split; [reflexivity | now apply Hbefore].
  - exists s. repeat split; assumption.
Qed.

(** The first iteration establishes the order. *)
Lemma first_step_ordered seg :
  ordered_state (step' ([], empty_accumulator) 0 seg).
Proof.
  unfold step', step, ordered_state. cbn [acc_start empty_accumulator get].
  destruct (flushes _ _ _ _ _) eqn:F; cbn [fst snd acc_start].
  - apply andb_true_iff in F as [F _]. apply ltb_lt in F.
    exists (ms_end seg - chunk_overlap). split; [reflexivity|]. split.
    + intros a [<- | []]. exists (ms_start seg).
      split; [reflexivity | lra].
    + exact I.
  - exists (ms_start seg). split; [reflexivity|]. split.
    + intros a [].
    + exact I.
Qed.

Lemma run_ordered :
  segments <> [] ->
  ordered_state (run segments chunk_duration chunk_overlap min_chunk_size).
Proof.
  intros Hne. destruct (run_first_step Hne) as (seg & rest & _ & ->).
  apply (loop_preserves ordered_state rest).
  - intros st idx s _. apply step_ordered.
  - apply first_step_ordered.
Qed.

End ChunkerLoop.

Section ChunkerCoverage.
Import Py Fusion Chunking Spec.

Variable segments : list merged_segment.
Variables chunk_duration chunk_overlap : Q.
Variable min_chunk_size : Z.

Let step' := step segments chunk_duration chunk_overlap min_chunk_size.

Hypothesis chunk_overlap_nonneg : 0 <= chunk_overlap.






End ChunkerCoverage.

Section ChunkerResult.
Import Py Fusion Chunking Spec.

Variable segments : list merged_segment.
Variables chunk_duration chunk_overlap : Q.
Variable min_chunk_size : Z.


(** The loop saves chunks that have a window, and leaves an accumulator
    that has one. *)
Lemma run_windowed :
  segments <> [] ->
  let st := run segments chunk_duration chunk_overlap min_chunk_size in
  Forall windowed (fst st) /\ windowed (snd st).
Proof.
  intros Hne st. subst st.
  destruct (run_first_step segments chunk_duration chunk_overlap
                            min_chunk_size Hne)
    as (seg & rest & E & ->).
  apply (loop_preserves segments chunk_duration chunk_overlap
           min_chunk_size
           (fun st => Forall windowed (fst st) /\ windowed (snd st)) rest).
  - intros st idx s _ [Hsaved _]. split.
    + now apply step_windowed.
    + split; [apply step_start | rewrite step_end; eauto].
  - split.
    + apply step_windowed. constructor.
    + split; [apply step_start | rewrite step_end; eauto].
Qed.

Lemma collect_windowed :
  Forall windowed
         (collect segments chunk_duration chunk_overlap min_chunk_size).
Proof.
  unfold collect. destruct segments as [|seg rest] eqn:E.
  - cbn. constructor.
  - rewrite <- E.
    assert (Hne : segments <> []) by (rewrite E; discriminate).
    destruct (run_windowed Hne) as [Hs Hc].
    destruct (run _ _ _ _) as [chunks cur]. cbn [fst snd] in *.
    destruct (emits_final _ _); [|exact Hs].
    apply Forall_app. split; [exact Hs | now constructor].
Qed.

Lemma collect_increasing :
  chunk_overlap <= chunk_duration ->
  adjacent precedes
           (collect segments chunk_duration chunk_overlap min_chunk_size).
Proof.
  intros Hle. unfold collect. destruct segments as [|seg rest] eqn:E.
  - cbn. exact I.
  - rewrite <- E.
    assert (Hne : segments <> []) by (rewrite E; discriminate).
    destruct (run_ordered segments chunk_duration chunk_overlap
                          min_chunk_size Hle Hne) as (s & Hs & Hb & Hadj).
    destruct (run _ _ _ _) as [chunks cur]. cbn [fst snd] in *.
    destruct (emits_final _ _); [|exact Hadj].
    apply adjacent_snoc; [exact Hadj|].
    intros a Ha. exists s. split; [exact Hs | now apply Hb].
Qed.

End ChunkerResult.

(** ** Duration-based chunker: formatting *)

Section ChunkerFormat.
Import Py Helpers Fusion Chunking Spec.

Lemma format_chunk_formats episode_name i a c :
  format_chunk episode_name (i, a) = Returned c ->
  formats a c /\ chunk_id c = i /\ episode c = episode_name.
Proof.
  unfold format_chunk, formats.
  destruct (timestamp_of (acc_start a)); cbn; [|discriminate].
  destruct (timestamp_of (acc_end a)); cbn; [|discriminate].
  destruct (acc_start a); [|discriminate].
  destruct (acc_end a); [|discriminate].
  intros H. inversion H; subst. cbn. repeat split.
Qed.

Lemma traverse_enumerate_formats episode_name (l : list accumulator) :
  forall k cs,
    traverse (format_chunk episode_name)
             (combine (seq k (List.length l)) l) = Returned cs ->
    Forall2 formats l cs.
Proof.
  induction l as [|a l IH]; cbn [List.length seq combine traverse];
    intros k cs H.
  - inversion H. constructor.
  - destruct (format_chunk episode_name (k, a)) as [c|e] eqn:Ec;
      cbn in H; [|discriminate].
    destruct (traverse _ _) as [cs'|e] eqn:Et; cbn in H; [|discriminate].
    inversion H; subst. constructor.
    + now apply format_chunk_formats in Ec.
    + now apply (IH (S k)).
Qed.

(** Whatever [chunk_transcript] returns is, element by element, the
    formatting of the chunks that lines 43-97 collect. *)
Lemma chunk_transcript_formats transcript chunk_duration chunk_overlap
      min_chunk_size chunks :
  chunk_transcript transcript chunk_duration chunk_overlap min_chunk_size
  = Returned chunks ->
  Forall2 formats
          (collect (get (mt_segments transcript) [])
                   (or_else chunk_duration Config.CHUNK_DURATION)
                   (or_else chunk_overlap Config.CHUNK_OVERLAP)
                   min_chunk_size)
          chunks.
Proof.
  unfold chunk_transcript.
  destruct (get (mt_segments transcript) []) as [|seg rest] eqn:E.
  - intros H. inversion H. cbn. constructor.
  - apply traverse_enumerate_formats.
Qed.

Lemma Forall2_In_l {A B} (F : A -> B -> Prop) l l' a :
  Forall2 F l l' -> In a l -> exists b, In b l' /\ F a b.
Proof.
  induction 1 as [|x y l l' Hxy _ IH]; intros Hin; [destruct Hin|].
  destruct Hin as [<- | Hin].
  - exists y. split; [now left | exact Hxy].
  - destruct (IH Hin) as (b & Hb & HF). exists b. split; [now right|exact HF].
Qed.

End ChunkerFormat.

(** ** Duration-based chunker: time order *)

(** C3, as the code has it.  When the overlap in force is not larger than
    the chunk duration in force (both after the fall-back to the configured
    defaults), the chunks that [chunk_transcript] returns are ordered by
    start time: [chunks[i].start <= chunks[i+1].start]. *)
Theorem chunk_transcript_time_ordered
        (transcript : Fusion.merged_transcript)
        (chunk_duration chunk_overlap : option Q) (min_chunk_size : Z)
        (chunks : list Chunking.chunk) :
  Py.or_else chunk_overlap Config.CHUNK_OVERLAP
  <= Py.or_else chunk_duration Config.CHUNK_DURATION ->
  Chunking.chunk_transcript transcript chunk_duration chunk_overlap
                            min_chunk_size
  = Py.Returned chunks ->
  forall i c1 c2,
    nth_error chunks i = Some c1 ->
    nth_error chunks (S i) = Some c2 ->
    Chunking.start c1 <= Chunking.start c2.
Proof.
  intros Hle Hret i c1 c2 H1 H2.
  apply chunk_transcript_formats in Hret.
  pose proof (collect_increasing
                (Py.get (Fusion.mt_segments transcript) []) _ _
                min_chunk_size Hle) as Hinc.
  apply Qlt_le_weak.
  apply (adjacent_nth (fun a b => Chunking.start a < Chunking.start b)
                      chunks) with (i := i); [|assumption|assumption].
  apply (adjacent_Forall2 Spec.precedes _ Spec.formats) with (2 := Hret);
    [|exact Hinc].
  intros a a' b b' (Ha & _) (Ha' & _) (y & Hy & x & Hx & Hlt).
  rewrite Ha in Hx. rewrite Ha' in Hy.
  inversion Hx; inversion Hy; subst. exact Hlt.
Qed.

(** C3, as stated, fails.  With [chunk_duration = 3] and the default
    overlap of 5 seconds, the second chunk of two two-second segments
    starts at [4 - 5 = -1], before the first chunk, which starts at 0. *)
Lemma chunk_transcript_not_time_ordered :
  exists chunks c1 c2,
    Chunking.chunk_transcript Samples.two_sentences (Some 3) None 50
    = Py.Returned chunks
    /\ nth_error chunks 0 = Some c1
    /\ nth_error chunks 1 = Some c2
    /\ ~ Chunking.start c1 <= Chunking.start c2.
Proof.
  eexists. eexists. eexists.
  split; [vm_compute; reflexivity|].
  split; [reflexivity|]. split; [reflexivity|].
  cbn. intros H. lra.
Qed.

(** ** Duration-based chunker: coverage *)



(** ** Duration-based chunker: the final chunk *)

Section Strip.
Import Py Spec.

(** Every character of a string has at least one byte, and the characters
    put together are the string. *)
Lemma chars_spec (n : nat) :
  forall s, (String.length s <= n)%nat ->
            Forall (fun ch => nonempty ch = true) (chars s)
            /\ unchars (chars s) = s.
Proof.
  induction n as [|n IH]; intros s Hlen.
  - destruct s; [split; [constructor | reflexivity] | cbn in Hlen; lia].
  - destruct s as [|a s1]; [split; [constructor | reflexivity]|].
    cbn [chars].
    destruct (char_width a) as [|[|[|[|[|w]]]]];
      destruct s1 as [|b [|c [|d s4]]]; cbn [String.length] in Hlen;
      match goal with
      | |- Forall _ (_ :: chars ?t) /\ _ =>
          destruct (IH t ltac:(cbn [String.length]; lia)) as [HF HU];
          split; [constructor; [reflexivity | exact HF]
                 | cbn [unchars append]; now rewrite HU]
      end.
Qed.

Lemma chars_nonempty s : Forall (fun ch => nonempty ch = true) (chars s).
Proof. exact (proj1 (chars_spec (String.length s) s (le_n _))). Qed.

Lemma unchars_chars s : unchars (chars s) = s.
Proof. exact (proj2 (chars_spec (String.length s) s (le_n _))). Qed.

Section DropWhile.
Variable A : Type.
Variable p : A -> bool.

Let keeps (x : A) : bool := negb (p x).

Lemma drop_while_nil (xs : list A) :
  drop_while p xs = [] <-> existsb keeps xs = false.
Proof.
  induction xs as [|x xs IH]; cbn [drop_while existsb]; [tauto|].
  unfold keeps at 1. destruct (p x); cbn [negb orb]; [exact IH|].
  split; discriminate.
Qed.

Lemma existsb_drop_while (xs : list A) :
  existsb keeps (drop_while p xs) = existsb keeps xs.
Proof.
  induction xs as [|x xs IH]; [reflexivity|].
  cbn [drop_while]. destruct (p x) eqn:E; [|reflexivity].
  rewrite IH. cbn [existsb]. unfold keeps at 2. now rewrite E.
Qed.

Lemma Forall_drop_while (P : A -> Prop) (xs : list A) :
  Forall P xs -> Forall P (drop_while p xs).
Proof.
  induction 1 as [|x xs Hx Hxs IH]; cbn [drop_while]; [constructor|].
  destruct (p x); [exact IH | now constructor].
Qed.

Lemma existsb_rev_keeps (xs : list A) :
  existsb keeps (rev xs) = existsb keeps xs.
Proof.
  induction xs as [|x xs IH]; [reflexivity|].
  cbn [rev existsb]. rewrite existsb_app, IH. cbn [existsb].
  rewrite orb_false_r. apply orb_comm.
Qed.

End DropWhile.

(** A string made of characters is empty only when there is none. *)
Lemma unchars_nil (cs : list string) :
  Forall (fun ch => nonempty ch = true) cs ->
  nonempty (unchars cs) = false -> cs = [].
Proof.
  intros HF. destruct HF as [|ch cs Hch _]; [reflexivity|].
  destruct ch; [discriminate Hch | discriminate].
Qed.

(** [s.strip()] is truthy exactly when [s] has a character that is not
    white space. *)
Lemma nonempty_strip s : nonempty (strip s) = has_nonspace s.
Proof.
  unfold strip, has_nonspace.
  set (cs := chars s).
  set (kept := rev (drop_while isspace (rev (drop_while isspace cs)))).
  assert (HF : Forall (fun ch => nonempty ch = true) kept).
  { unfold kept. apply Forall_rev, Forall_drop_while, Forall_rev,
      Forall_drop_while, chars_nonempty. }
  assert (Hex : existsb (fun ch => negb (isspace ch)) kept
                = existsb (fun ch => negb (isspace ch)) cs).
  { unfold kept.
    now rewrite existsb_rev_keeps, existsb_drop_while, existsb_rev_keeps,
      existsb_drop_while. }
  rewrite <- Hex.
  destruct (nonempty (unchars kept)) eqn:N.
  - destruct (existsb _ kept) eqn:E; [reflexivity|].
    assert (Hnil : kept = []).
    { unfold kept in E |- *.
      rewrite existsb_rev_keeps, existsb_drop_while in E.
      apply drop_while_nil in E. now rewrite E. }
    rewrite Hnil in N. discriminate N.
  - apply (unchars_nil _ HF) in N. now rewrite N.
Qed.

End Strip.



(** White space is the one of Unicode and the minimum counts characters:
    a remainder holding a space and a no-break space is dropped, and a
    remainder of a space and 22 characters meets a minimum of 23 and no
    more. *)
Example chunk_transcript_drops_no_break_space :
  Chunking.chunk_transcript Samples.blank None None 1 = Py.Returned [].
Proof. vm_compute. reflexivity. Qed.

Example chunk_transcript_counts_characters :
  Py.len Samples.konnichiwa = 22%Z
  /\ List.length
       (Samples.returned
          (Chunking.chunk_transcript Samples.aisatsu None None 23)) = 1%nat
  /\ Chunking.chunk_transcript Samples.aisatsu None None 24 = Py.Returned [].
Proof. repeat split; vm_compute; reflexivity. Qed.

(** ** Timestamps: when formatting returns *)

Section TimestampReturns.
Import Py Helpers Spec.

Lemma round_half_even_le (q : Q) (n : Z) :
  q <= inject_Z n -> (round_half_even q <= n)%Z.
Proof.
  intros Hq. unfold round_half_even.
  pose proof (Qfloor_le q) as Hf.
  assert (Hfn : (Qfloor q <= n)%Z) by (rewrite Zle_Qle; lra).
  set (f := Qfloor q) in *.
  assert (Hup : ~ q - inject_Z f < 1 # 2 -> (f + 1 <= n)%Z).
  { intros Hr. assert (H : inject_Z f < inject_Z n) by lra.
    rewrite <- Zlt_Qlt in H. lia. }
  destruct (ltb (q - inject_Z f) (1 # 2)) eqn:E1; [exact Hfn|].
  apply ltb_ge in E1.
  destruct (ltb (1 # 2) (q - inject_Z f)) eqn:E2; [apply Hup; lra|].
  destruct (Z.even f); [exact Hfn | apply Hup; lra].
Qed.

Lemma round_half_even_ge (q : Q) (n : Z) :
  inject_Z n <= q -> (n <= round_half_even q)%Z.
Proof.
  intros Hq. unfold round_half_even.
  pose proof (Qlt_floor q) as Hf. rewrite inject_Z_plus in Hf.
  assert (Hfn : (n <= Qfloor q)%Z).
  { assert (H : inject_Z n < inject_Z (Qfloor q + 1)).
    { rewrite inject_Z_plus. lra. }
    rewrite <- Zlt_Qlt in H. lia. }
  destruct (ltb _ _); [exact Hfn|].
  destruct (ltb _ _); [lia|].
  destruct (Z.even _); lia.
Qed.

Lemma timedelta_of_seconds_returns (x : Q) :
  0 <= x -> x <= MAX_SECONDS ->
  exists td, timedelta_of_seconds x = Returned td.
Proof.
  intros H0 Hmax. unfold timedelta_of_seconds.
  set (us := round_half_even (x * inject_Z 1000000)).
  assert (Hlo : (0 <= us)%Z).
  { apply round_half_even_ge. change (inject_Z 0) with 0.
    change (inject_Z 1000000) with 1000000. lra. }
  assert (Hhi : (us <= 86399999999999 * 1000000)%Z).
  { apply round_half_even_le.
    change (inject_Z (86399999999999 * 1000000))
      with (86399999999999 * 1000000).
    change (inject_Z 1000000) with 1000000.
    unfold MAX_SECONDS in Hmax. lra. }
  assert (Hd : (0 <= us / 1000000 / 86400 <= 999999999)%Z).
  { split.
    - apply Z.div_pos; [apply Z.div_pos|]; lia.
    - assert (Hs : (us / 1000000 <= 86399999999999)%Z)
        by (apply Z.div_le_upper_bound; lia).
      assert (us / 1000000 / 86400 < 1000000000)%Z; [|lia].
      apply Z.div_lt_upper_bound; lia. }
  destruct (_ || _) eqn:E; [|eauto].
  apply orb_true_iff in E as [E | E]; apply Z.ltb_lt in E; lia.
Qed.

Lemma seconds_to_timestamp_returns (seconds : Q) (include_ms : bool) :
  seconds <= MAX_SECONDS ->
  exists s, seconds_to_timestamp seconds include_ms = Returned s.
Proof.
  intros Hmax. unfold seconds_to_timestamp.
  set (clamped := if ltb seconds 0 then 0 else seconds).
  assert (H : 0 <= clamped /\ clamped <= MAX_SECONDS).
  { subst clamped. destruct (ltb seconds 0) eqn:E.
    - split; [lra | unfold MAX_SECONDS; lra].
    - apply ltb_ge in E. split; assumption. }
  destruct (timedelta_of_seconds_returns clamped) as [td ->];
    [apply H | apply H |].
  cbn [bind]. destruct include_ms; eauto.
Qed.

End TimestampReturns.

(** ** Duration-based chunker: when it returns *)

Section ChunkerReturns.
Import Py Helpers Fusion Chunking Spec.

Variable segments : list merged_segment.
Variables chunk_duration chunk_overlap : Q.
Variable min_chunk_size : Z.

Let step' := step segments chunk_duration chunk_overlap min_chunk_size.

Lemma step_in_range st idx seg :
  segment_in_range chunk_overlap seg ->
  Forall in_range (fst st) /\ in_range (snd st) ->
  Forall in_range (fst (step' st idx seg))
  /\ in_range (snd (step' st idx seg)).
Proof.
  intros (Hs & He & Ho) [Hsaved [Hcs Hce]].
  destruct st as [chunks cur]. cbn [fst snd] in *.
  assert (Hget : get (acc_start cur) (ms_start seg) <= MAX_SECONDS).
  { destruct (acc_start cur) as [x|] eqn:E; cbn; [now apply Hcs | exact Hs]. }
  unfold step', step.
  destruct (flushes _ _ _ _ _); cbn [fst snd]; split.
  - apply Forall_app. split; [exact Hsaved|].
    constructor; [|constructor].
    split; cbn; intros z Hz; inversion Hz; subst; assumption.
  - split; cbn; intros z Hz; inversion Hz; subst; assumption.
  - exact Hsaved.
  - split; cbn; intros z Hz; inversion Hz; subst; assumption.
Qed.

Lemma collect_in_range :
  Forall (segment_in_range chunk_overlap) segments ->
  Forall in_range
         (collect segments chunk_duration chunk_overlap min_chunk_size).
Proof.
  intros Hall. unfold collect, run.
  assert (H : Forall in_range
                (fst (loop segments chunk_duration chunk_overlap
                           min_chunk_size 0 segments
                           ([], empty_accumulator)))
              /\ in_range
                   (snd (loop segments chunk_duration chunk_overlap
                              min_chunk_size 0 segments
                              ([], empty_accumulator)))).
  { apply (loop_preserves
             segments chunk_duration chunk_overlap min_chunk_size
             (fun st => Forall in_range (fst st) /\ in_range (snd st))).
    - intros st idx seg Hin. apply step_in_range.
      rewrite Forall_forall in Hall. now apply Hall.
    - split; [constructor|]. split; cbn; discriminate. }
  destruct (loop _ _ _ _ _ _ _) as [chunks cur]. cbn [fst snd] in H.
  destruct H as [Hs Hc].
  destruct (emits_final _ _); [|exact Hs].
  apply Forall_app. split; [exact Hs | now constructor].
Qed.

Lemma format_chunk_returns episode_name i a :
  windowed a -> in_range a ->
  exists c, format_chunk episode_name (i, a) = Returned c.
Proof.
  intros [[x Hx] [y Hy]] [Hrx Hry]. unfold format_chunk.
  rewrite Hx, Hy. cbn [timestamp_of].
  destruct (seconds_to_timestamp_returns x true) as [sx ->];
    [now apply Hrx|].
  destruct (seconds_to_timestamp_returns y true) as [sy ->];
    [now apply Hry|].
  cbn. eauto.
Qed.

End ChunkerReturns.

(** [chunk_transcript] returns a chunk list whenever the times of the
    segments, and the chunk starts derived from them, stay below the range
    of [timedelta]. *)
Lemma chunk_transcript_returns
      (transcript : Fusion.merged_transcript)
      (chunk_duration chunk_overlap : option Q) (min_chunk_size : Z) :
  Forall (Spec.segment_in_range
            (Py.or_else chunk_overlap Config.CHUNK_OVERLAP))
         (Py.get (Fusion.mt_segments transcript) []) ->
  exists chunks,
    Chunking.chunk_transcript transcript chunk_duration chunk_overlap
                              min_chunk_size
    = Py.Returned chunks.
Proof.
  intros Hall. unfold Chunking.chunk_transcript.
  destruct (Py.get (Fusion.mt_segments transcript) []) as [|seg rest] eqn:E;
    [eauto|].
  rewrite <- E in *.
  pose proof (collect_in_range
                _ (Py.or_else chunk_duration Config.CHUNK_DURATION) _
                min_chunk_size Hall) as Hr.
  pose proof (collect_windowed
                (Py.get (Fusion.mt_segments transcript) [])
                (Py.or_else chunk_duration Config.CHUNK_DURATION)
                (Py.or_else chunk_overlap Config.CHUNK_OVERLAP)
                min_chunk_size) as Hw.
  apply traverse_returns. intros [i a] Hin.
  apply in_combine_r in Hin.
  rewrite Forall_forall in Hr, Hw.
  apply format_chunk_returns; [now apply Hw | now apply Hr].
Qed.

(** ** Speaker-turn chunker *)

Section TurnLoop.
Import Py Helpers Fusion Chunking Spec.

Variable episode_name : string.
Variable max_turn_duration : Q.

Let step' := turn_step episode_name max_turn_duration.

Lemma fold_left_preserves {S X : Type} (f : S -> X -> S) (P : S -> Prop)
      (l : list X) :
  (forall s x, In x l -> P s -> P (f s x)) ->
  forall s, P s -> P (fold_left f l s).
Proof.
  induction l as [|x l IH]; intros Hstep s Hs; [exact Hs|].
  cbn. apply IH.
  - intros s' x' Hin. apply Hstep. now right.
  - apply Hstep; [now left | exact Hs].
Qed.

(** A split only happens on a started turn. *)
Lemma splits_started current_speaker current_chunk speaker segment :
  splits max_turn_duration current_speaker current_chunk speaker segment
  = true ->
  started current_chunk.
Proof.
  unfold splits, started. intros H.
  apply orb_true_iff in H as [H | H].
  - apply andb_true_iff in H as [_ H]. now right.
  - destruct (turn_start current_chunk) as [x|]; [left; eauto|discriminate].
Qed.


Lemma nonempty_strip_nonempty s :
  nonempty (strip s) = true -> nonempty s = true.
Proof.
  rewrite nonempty_strip. destruct s; [discriminate | reflexivity].
Qed.




End TurnLoop.


Section TurnReturns.
Import Py Helpers Fusion Chunking Spec.

Variable episode_name : string.
Variable max_turn_duration : Q.

Let step' := turn_step episode_name max_turn_duration.

Lemma or_else_le (a : option Q) (b bound : Q) :
  (forall y, a = Some y -> y <= bound) -> b <= bound ->
  or_else a b <= bound.
Proof.
  intros Ha Hb. destruct a as [y|]; cbn; [|exact Hb].
  destruct (truthy y); [now apply Ha | exact Hb].
Qed.

Lemma turn_step_in_range st seg :
  ms_start seg <= MAX_SECONDS -> ms_end seg <= MAX_SECONDS ->
  turn_range_state st -> turn_range_state (step' st seg).
Proof.
  destruct st as [[chunks current_speaker] cur].
  intros Hs He [Hsaved Hcur]. unfold step', turn_step.
  destruct (splits _ _ _ _ _) eqn:E; cbn [turn_range_state].
  - apply splits_started in E. split.
    + apply Forall_app. split; [exact Hsaved|].
      constructor; [|constructor].
      destruct (Hcur E) as [(x & Hx & Hxr) (y & Hy & Hyr)].
      split; cbn.
      * exists x. split; assumption.
      * eexists. split; [reflexivity|].
        apply or_else_le; [|exact Hs].
        intros z Hz. rewrite Hy in Hz. inversion Hz; subst. exact Hyr.
    + intros _. split; cbn; eexists; split; try reflexivity; assumption.
  - split; [exact Hsaved|]. intros _.
    destruct (nonempty (turn_text cur)) eqn:N; cbn.
    + destruct Hcur as [Hx _]; [now right|].
      split; [exact Hx|]. cbn. eexists. split; [reflexivity | exact He].
    + split; cbn; eexists; split; try reflexivity; assumption.
Qed.

Lemma collect_turns_in_range segments :
  Forall (fun seg => ms_start seg <= MAX_SECONDS
                     /\ ms_end seg <= MAX_SECONDS) segments ->
  Forall turn_ready
         (collect_turns episode_name max_turn_duration segments).
Proof.
  intros Hall. unfold collect_turns.
  assert (H : turn_range_state
                (fold_left step' segments ([], None, empty_turn))).
  { apply fold_left_preserves.
    - intros st seg Hin. rewrite Forall_forall in Hall.
      destruct (Hall seg Hin). now apply turn_step_in_range.
    - split; [constructor|].
      intros [[x Hx] | Ht]; discriminate. }
  unfold step' in H.
  destruct (fold_left _ _ _) as [[chunks current_speaker] cur].
  destruct H as [Hsaved Hcur].
  destruct (nonempty (strip (turn_text cur))) eqn:N; [|exact Hsaved].
  apply Forall_app. split; [exact Hsaved|].
  constructor; [|constructor]. apply Hcur. right.
  now apply nonempty_strip_nonempty.
Qed.

Lemma format_turn_returns i a :
  turn_ready a -> exists c, format_turn (i, a) = Returned c.
Proof.
  intros [(x & Hx & Hxr) (y & Hy & Hyr)]. unfold format_turn.
  rewrite Hx, Hy. cbn [timestamp_of].
  destruct (seconds_to_timestamp_returns x true Hxr) as [sx ->].
  destruct (seconds_to_timestamp_returns y true Hyr) as [sy ->].
  cbn. eauto.
Qed.

End TurnReturns.

(** [chunk_by_speaker_turns] returns a chunk list whenever the times of the
    segments stay below the range of [timedelta]. *)
Lemma chunk_by_speaker_turns_returns
      (transcript : Fusion.merged_transcript) (max_turn_duration : Q) :
  Forall (fun seg => Fusion.ms_start seg <= Spec.MAX_SECONDS
                     /\ Fusion.ms_end seg <= Spec.MAX_SECONDS)
         (Py.get (Fusion.mt_segments transcript) []) ->
  exists chunks,
    Chunking.chunk_by_speaker_turns transcript max_turn_duration
    = Py.Returned chunks.
Proof.
  intros Hall. unfold Chunking.chunk_by_speaker_turns.
  apply traverse_returns. intros [i a] Hin.
  apply in_combine_r in Hin.
  pose proof (collect_turns_in_range
                (Py.get (Fusion.mt_file transcript) "unknown"%string)
                max_turn_duration _ Hall) as Hr.
  rewrite Forall_forall in Hr.
  apply format_turn_returns. now apply Hr.
Qed.

(** ** Timestamps: the round trip *)

(** C5.  The round trip is not within a millisecond for every [x >= 0]:
    [seconds_to_timestamp] reads the hours, minutes and seconds from
    [td.seconds], which leaves out the days of the [timedelta], so 86400
    seconds come back as 0. *)
Theorem timestamp_round_trip_loses_days :
  exists s y,
    Helpers.seconds_to_timestamp 86400 true = Py.Returned s
    /\ s = "00:00:00.000"%string
    /\ Helpers.timestamp_to_seconds s = Py.Returned y
    /\ y == 0
    /\ ~ Qabs (y - 86400) <= 1 # 1000.
Proof.
  eexists. eexists.
  split; [vm_compute; reflexivity|]. split; [reflexivity|].
  split; [vm_compute; reflexivity|]. split; [reflexivity|].
  intros H. vm_compute in H. apply H. reflexivity.
Qed.

(** The same round trip is a second off just below a whole second: the
    [timedelta] rounds 0.9999996 up to one second, while the milliseconds
    are taken from the unrounded fraction. *)
Lemma timestamp_round_trip_carries_second :
  exists s y,
    Helpers.seconds_to_timestamp (9999996 # 10000000) true = Py.Returned s
    /\ s = "00:00:01.999"%string
    /\ Helpers.timestamp_to_seconds s = Py.Returned y
    /\ y == 1999 # 1000
    /\ ~ Qabs (y - (9999996 # 10000000)) <= 1 # 1000.
Proof.
  eexists. eexists.
  split; [vm_compute; reflexivity|]. split; [reflexivity|].
  split; [vm_compute; reflexivity|]. split; [reflexivity|].
  intros H. vm_compute in H. apply H. reflexivity.
Qed.

(** The examples of the docstrings. *)
Example seconds_to_timestamp_docstring :
  Helpers.seconds_to_timestamp (125456 # 1000) true
  = Py.Returned "00:02:05.456"%string
  /\ Helpers.seconds_to_timestamp (36615 # 10) false
     = Py.Returned "01:01:01"%string.
Proof. split; vm_compute; reflexivity. Qed.

Example timestamp_to_seconds_docstring :
  Helpers.timestamp_to_seconds "00:02:05.456" = Py.Returned (125456 # 1000)
  /\ Helpers.timestamp_to_seconds "01:01:01" = Py.Returned (3661000 # 1000).
Proof. split; vm_compute; reflexivity. Qed.

(** *** Where the round trip holds *)

Section RoundTrip.
Import Py Helpers Spec.

Lemma append_assoc (a b c : string) :
  ((a ++ b) ++ c = a ++ (b ++ c))%string.
Proof. induction a as [|x a IH]; cbn; [reflexivity | now rewrite IH]. Qed.

Lemma contains_app sep (a b : string) :
  contains sep (a ++ b) = contains sep a || contains sep b.
Proof.
  induction a as [|x a IH]; cbn; [reflexivity|].
  rewrite IH. now rewrite orb_assoc.
Qed.

Lemma split_no_sep sep (s : string) :
  contains sep s = false -> split sep s = [s].
Proof.
  induction s as [|x s IH]; cbn; [reflexivity|].
  intros H. apply orb_false_iff in H as [Hx Hs].
  rewrite Hx, (IH Hs). reflexivity.
Qed.

Lemma split_app sep (t u : string) :
  contains sep t = false ->
  split sep (t ++ String sep u) = t :: split sep u.
Proof.
  induction t as [|x t IH]; cbn.
  - intros _. now rewrite Ascii.eqb_refl.
  - intros H. apply orb_false_iff in H as [Hx Ht].
    rewrite Hx, (IH Ht). reflexivity.
Qed.

Lemma below_spec (P : Z -> bool) (N : nat) :
  forallb P (below N) = true ->
  forall n, (0 <= n < Z.of_nat N)%Z -> P n = true.
Proof.
  intros H n Hn. rewrite forallb_forall in H. apply H.
  unfold below. apply in_map_iff. exists (Z.to_nat n).
  split; [lia|]. apply in_seq. lia.
Qed.

Lemma two_digits (n : Z) :
  (0 <= n < 100)%Z ->
  contains ":"%char (format_0d 2 n) = false
  /\ contains "."%char (format_0d 2 n) = false
  /\ int_of_string (format_0d 2 n) = Returned n.
Proof.
  intros Hn.
  assert (H : two_digits_ok n = true).
  { apply (below_spec two_digits_ok 100); [vm_compute; reflexivity | lia]. }
  unfold two_digits_ok in H.
  apply andb_true_iff in H as [H H3]. apply andb_true_iff in H as [H1 H2].
  apply negb_true_iff in H1, H2. repeat split; try assumption.
  destruct (int_of_string _) as [v|]; [|discriminate].
  apply Z.eqb_eq in H3. now subst.
Qed.

Lemma three_digits (n : Z) :
  (0 <= n < 1000)%Z ->
  contains "."%char (format_0d 3 n) = false
  /\ float_of_fraction (format_0d 3 n) = Returned (n # 1000).
Proof.
  intros Hn.
  assert (H : three_digits_ok n = true).
  { apply (below_spec three_digits_ok 1000); [vm_compute; reflexivity | lia]. }
  unfold three_digits_ok in H.
  apply andb_true_iff in H as [H1 H2]. apply negb_true_iff in H1.
  split; [assumption|].
  destruct (float_of_fraction _) as [[p q]|]; [|discriminate].
  apply andb_true_iff in H2 as [Hp Hq]. cbn [Qnum Qden] in Hp, Hq.
  apply Z.eqb_eq in Hp. apply Pos.eqb_eq in Hq. now subst.
Qed.

(** Reading back a formatted clock string. *)
Lemma timestamp_to_seconds_formatted (h m s ms : Z) :
  (0 <= h < 100)%Z -> (0 <= m < 100)%Z -> (0 <= s < 100)%Z ->
  (0 <= ms < 1000)%Z ->
  timestamp_to_seconds
    (format_0d 2 h ++ ":" ++ format_0d 2 m ++ ":" ++ format_0d 2 s
     ++ "." ++ format_0d 3 ms)%string
  = Returned
      (round (inject_Z (h * 3600 + m * 60 + s) + (ms # 1000)) 3).
Proof.
  intros Hh Hm Hs Hms.
  destruct (two_digits h Hh) as (Hh1 & Hh2 & Hh3).
  destruct (two_digits m Hm) as (Hm1 & Hm2 & Hm3).
  destruct (two_digits s Hs) as (Hs1 & Hs2 & Hs3).
  destruct (three_digits ms Hms) as (Hms1 & Hms2).
  set (H := format_0d 2 h) in *. set (M := format_0d 2 m) in *.
  set (S' := format_0d 2 s) in *. set (MS := format_0d 3 ms) in *.
  set (T := (H ++ String ":" (M ++ String ":" S'))%string).
  assert (E : (H ++ ":" ++ M ++ ":" ++ S' ++ "." ++ MS)%string
              = (T ++ String "." MS)%string).
  { unfold T. cbn [append]. rewrite !append_assoc. cbn [append].
    rewrite !append_assoc. reflexivity. }
  assert (HT : contains "."%char T = false).
  { unfold T. rewrite contains_app. cbn [contains].
    rewrite contains_app. cbn [contains].
    rewrite Hh2, Hm2, Hs2. reflexivity. }
  rewrite E. unfold timestamp_to_seconds, timestamp_to_seconds_body.
  rewrite contains_app. cbn [contains]. rewrite Ascii.eqb_refl.
  rewrite orb_true_r. cbn [orb].
  rewrite (split_app "."%char T MS HT), (split_no_sep "."%char MS Hms1).
  rewrite Hms2. cbn [bind].
  unfold T. rewrite (split_app ":"%char H _ Hh1).
  rewrite (split_app ":"%char M _ Hm1), (split_no_sep ":"%char S' Hs1).
  rewrite Hh3, Hm3, Hs3. cbn [bind]. reflexivity.
Qed.

Lemma round_half_even_lt_half (q : Q) (n : Z) :
  q < inject_Z n + (1 # 2) -> (round_half_even q <= n)%Z.
Proof.
  intros Hq. unfold round_half_even.
  pose proof (Qfloor_le q) as Hf.
  assert (Hfn : (Qfloor q <= n)%Z).
  { assert (H : inject_Z (Qfloor q) < inject_Z (n + 1)).
    { rewrite inject_Z_plus. change (inject_Z 1) with 1. lra. }
    rewrite <- Zlt_Qlt in H. lia. }
  set (f := Qfloor q) in *.
  destruct (ltb (q - inject_Z f) (1 # 2)) eqn:E1; [exact Hfn|].
  apply ltb_ge in E1.
  assert (H : inject_Z f < inject_Z n) by lra.
  rewrite <- Zlt_Qlt in H.
  destruct (ltb _ _); [lia|]. destruct (Z.even f); lia.
Qed.

Lemma round_half_even_integer (q : Q) (k : Z) :
  q == inject_Z k -> round_half_even q = k.
Proof.
  intros E. apply Z.le_antisymm.
  - apply round_half_even_le. rewrite E. apply Qle_refl.
  - apply round_half_even_ge. rewrite E. apply Qle_refl.
Qed.

Lemma int_of_float_floor (q : Q) : 0 <= q -> int_of_float q = Qfloor q.
Proof.
  destruct q as [n d]. unfold int_of_float, Qfloor, Qle. cbn.
  intros H. apply Z.quot_div_nonneg; lia.
Qed.

(** Below one day, and when the fraction of the second does not round up
    to a whole second at the microsecond, [timedelta] keeps the whole
    seconds. *)
Lemma timedelta_of_seconds_whole (x : Q) :
  0 <= x -> x < 86400 ->
  x - inject_Z (Qfloor x) < 9999995 # 10000000 ->
  exists td,
    timedelta_of_seconds x = Returned td /\ td_seconds td = Qfloor x.
Proof.
  intros H0 Hday Hfrac. unfold timedelta_of_seconds.
  pose proof (Qfloor_le x) as Hf.
  set (n := Qfloor x) in *.
  assert (Hn : (0 <= n < 86400)%Z).
  { split.
    - change 0%Z with (Qfloor 0). now apply Qfloor_resp_le.
    - rewrite Zlt_Qlt. change (inject_Z 86400) with 86400. lra. }
  set (us := round_half_even (x * inject_Z 1000000)).
  assert (Hlo : (n * 1000000 <= us)%Z).
  { apply round_half_even_ge. rewrite inject_Z_mult.
    change (inject_Z 1000000) with 1000000. lra. }
  assert (Hhi : (us <= n * 1000000 + 999999)%Z).
  { apply round_half_even_lt_half.
    rewrite inject_Z_plus, inject_Z_mult.
    change (inject_Z 1000000) with 1000000.
    change (inject_Z 999999) with 999999. lra. }
  assert (Hs : (us / 1000000 = n)%Z).
  { symmetry. apply (Z.div_unique us 1000000 n (us - n * 1000000)); lia. }
  rewrite Hs.
  assert (Hd : (n / 86400 = 0)%Z) by (apply Z.div_small; lia).
  rewrite Hd. cbn [Z.ltb Z.compare orb].
  eexists. split; [reflexivity|]. cbn [td_seconds].
  apply Z.mod_small. lia.
Qed.

(** The nearest statement to C5 that the code satisfies: below one day, and
    when the fraction of the second is below 0.9999995, the round trip
    returns a value at most one millisecond below [x]. *)
Lemma timestamp_round_trip_within_a_day (x : Q) :
  0 <= x -> x < 86400 ->
  x - inject_Z (Qfloor x) < 9999995 # 10000000 ->
  exists s y,
    seconds_to_timestamp x true = Returned s
    /\ timestamp_to_seconds s = Returned y
    /\ y <= x /\ x - y < 1 # 1000.
Proof.
  intros H0 Hday Hfrac. unfold seconds_to_timestamp.
  assert (E0 : ltb x 0 = false) by now apply ltb_ge.
  rewrite E0.
  destruct (timedelta_of_seconds_whole x H0 Hday Hfrac) as (td & -> & Hsec).
  cbn [bind]. rewrite Hsec. clear Hsec td.
  pose proof (Qfloor_le x) as Hf. pose proof (Qlt_floor x) as Hc.
  rewrite inject_Z_plus in Hc. change (inject_Z 1) with 1 in Hc.
  set (n := Qfloor x) in *.
  assert (Hn : (0 <= n < 86400)%Z).
  { split.
    - change 0%Z with (Qfloor 0). now apply Qfloor_resp_le.
    - rewrite Zlt_Qlt. change (inject_Z 86400) with 86400. lra. }
  unfold mod1. fold n.
  set (q := (x - inject_Z n) * inject_Z 1000).
  assert (Hq : 0 <= q /\ q < 1000).
  { unfold q. change (inject_Z 1000) with 1000. split; lra. }
  rewrite (int_of_float_floor q) by apply Hq.
  pose proof (Qfloor_le q) as Hqf. pose proof (Qlt_floor q) as Hqc.
  rewrite inject_Z_plus in Hqc. change (inject_Z 1) with 1 in Hqc.
  set (ms := Qfloor q) in *.
  assert (Hms : (0 <= ms < 1000)%Z).
  { split.
    - change 0%Z with (Qfloor 0). apply Qfloor_resp_le. apply Hq.
    - rewrite Zlt_Qlt. change (inject_Z 1000) with 1000. lra. }
  eexists. eexists. split; [reflexivity|].
  rewrite timestamp_to_seconds_formatted;
    [| split; [apply Z.div_pos | apply Z.div_lt_upper_bound]; lia
     | split; [apply Z.div_pos; [apply Z.mod_pos_bound|]
              | apply Z.div_lt_upper_bound; [|
                  pose proof (Z.mod_pos_bound n 3600)]]; lia
     | pose proof (Z.mod_pos_bound n 60); lia
     | exact Hms ].
  split; [reflexivity|].
  assert (Hsum : (n / 3600 * 3600 + n mod 3600 / 60 * 60 + n mod 60 = n)%Z).
  { pose proof (Z.div_mod n 3600). pose proof (Z.div_mod (n mod 3600) 60).
    assert ((n mod 3600) mod 60 = n mod 60)%Z.
    { apply Z.mod_mod_divide. exists 60%Z. reflexivity. }
    lia. }
  rewrite Hsum.
  change (round (inject_Z n + (ms # 1000)) 3)
    with (Qmake (round_half_even
                   ((inject_Z n + (ms # 1000)) * inject_Z 1000)) 1000).
  rewrite (round_half_even_integer _ (n * 1000 + ms)).
  - assert (Ey : (n * 1000 + ms # 1000)
                 == inject_Z n + inject_Z ms * (1 # 1000)).
    { rewrite (Qmake_Qdiv (n * 1000 + ms) 1000).
      rewrite inject_Z_plus, inject_Z_mult.
      change (inject_Z 1000) with 1000. change (inject_Z (Z.pos 1000)) with 1000.
      field. }
    rewrite Ey. unfold q in Hqf, Hqc.
    change (inject_Z 1000) with 1000 in Hqf, Hqc.
    clearbody n ms. split; lra.
  - rewrite inject_Z_plus, inject_Z_mult.
    change (inject_Z 1000) with 1000.
    rewrite (Qmake_Qdiv ms 1000). change (inject_Z (Z.pos 1000)) with 1000.
    field.
Qed.

End RoundTrip.

(** ** Instances on the sample inputs *)

Example sentence_has_50_characters : Py.len Samples.sentence = 50%Z.
Proof. reflexivity. Qed.

(** The end-to-end scenario: three transcript segments give three merged
    segments, in order. *)
Lemma merge_is_one_to_one_witness :
  exists merged merged_segments,
    Fusion.merge_transcription_and_diarization
      Samples.save_nothing Samples.conversation Samples.two_speakers None tt
    = (Py.Returned merged, tt)
    /\ Fusion.mt_segments merged = Some merged_segments
    /\ List.length merged_segments = 3%nat
    /\ forall i,
        nth_error merged_segments i
        = option_map
            (Fusion.merge_segment
               (Py.get (Fusion.di_segments Samples.two_speakers) []))
            (nth_error
               (Py.get (Fusion.tr_segments Samples.conversation) []) i).
Proof.
  exact (merge_is_one_to_one
           unit Samples.save_nothing Samples.conversation
           Samples.two_speakers _ _ tt eq_refl eq_refl).
Defined.

(** A transcription, then a diarization, without its segments. *)
Lemma merge_missing_segments_raises_witness :
  Fusion.merge_transcription_and_diarization
    Samples.save_nothing Samples.no_transcript Samples.two_speakers
    (Some "merged.json"%string) tt
  = (Py.Raised (Py.KeyError "segments"), tt)
  /\ Fusion.merge_transcription_and_diarization
       Samples.save_nothing Samples.conversation Samples.no_diarization
       None tt
     = (Py.Raised (Py.KeyError "segments"), tt).
Proof.
  split.
  - apply merge_missing_segments_raises. left. reflexivity.
  - apply merge_missing_segments_raises. right. reflexivity.
Defined.

(** An episode with an empty segment list. *)
Lemma chunk_transcript_empty_witness :
  Chunking.chunk_transcript (Samples.episode []) None None 50
  = Py.Returned [].
Proof.
  apply chunk_transcript_empty. right. reflexivity.
Defined.

(** Zero passed for both arguments. *)
Lemma chunk_transcript_falsy_arguments_witness :
  Chunking.chunk_transcript Samples.two_sentences (Some 0) (Some 0) 50
  = Chunking.chunk_transcript Samples.two_sentences
                              (Some Config.CHUNK_DURATION) (Some 0) 50
  /\ Chunking.chunk_transcript Samples.two_sentences (Some 0) (Some 0) 50
     = Chunking.chunk_transcript Samples.two_sentences (Some 0)
                                 (Some Config.CHUNK_OVERLAP) 50.
Proof.
  pose proof (chunk_transcript_falsy_arguments
                Samples.two_sentences (Some 0) (Some 0) 50)
    as (Hd & Ho & _).
  split; [apply Hd | apply Ho]; reflexivity.
Defined.

(** Two sentences chunked with a duration of 3 and an overlap of 1 second:
    the chunks start at 0 and at 3. *)
Lemma chunk_transcript_time_ordered_witness :
  Py.or_else (Some 1) Config.CHUNK_OVERLAP
  <= Py.or_else (Some 3) Config.CHUNK_DURATION
  /\ Chunking.chunk_transcript Samples.two_sentences (Some 3) (Some 1) 50
     = Py.Returned Samples.two_sentences_chunks
  /\ forall i c1 c2,
      nth_error Samples.two_sentences_chunks i = Some c1 ->
      nth_error Samples.two_sentences_chunks (S i) = Some c2 ->
      Chunking.start c1 <= Chunking.start c2.
Proof.
  assert (Hle : Py.or_else (Some 1) Config.CHUNK_OVERLAP
                <= Py.or_else (Some 3) Config.CHUNK_DURATION)
    by (apply Qle_bool_imp_le; reflexivity).
  assert (Hret : Chunking.chunk_transcript Samples.two_sentences
                                           (Some 3) (Some 1) 50
                 = Py.Returned Samples.two_sentences_chunks)
    by (vm_compute; reflexivity).
  split; [exact Hle|]. split; [exact Hret|].
  exact (chunk_transcript_time_ordered _ _ _ _ _ Hle Hret).
Defined.




(* ================================================================== *)
(** * Further properties *)
(* ================================================================== *)

(** ** Enumerated formatting *)

Section Enumerate.
Import Py.
Context {A B : Type}.

(** What [traverse] returns over an enumerated list is, at every index,
    the image of the element with that index. *)
Lemma traverse_enumerate_nth (f : nat * A -> outcome B) (l : list A) :
  forall k cs,
    traverse f (combine (seq k (List.length l)) l) = Returned cs ->
    List.length cs = List.length l
    /\ forall i c,
        nth_error cs i = Some c ->
        exists a, nth_error l i = Some a /\ f ((k + i)%nat, a) = Returned c.
Proof.
  induction l as [|a l IH]; cbn [List.length seq combine traverse];
    intros k cs H.
  - inversion H. split; [reflexivity|]. intros [|i] c Hc; discriminate.
  - destruct (f (k, a)) as [c0|e] eqn:Ec; cbn in H; [|discriminate].
    destruct (traverse _ _) as [cs'|e] eqn:Et; cbn in H; [|discriminate].
    inversion H; subst. destruct (IH (S k) cs' Et) as [Hlen Hnth].
    split; [cbn; now rewrite Hlen|].
    intros [|i] c Hc; cbn in Hc.
    + inversion Hc; subst. exists a. rewrite Nat.add_0_r. now split.
    + destruct (Hnth i c Hc) as (a' & Ha' & Hf).
      exists a'. split; [exact Ha'|]. now rewrite Nat.add_succ_r.
Qed.


End Enumerate.

(** ** Indexing chunker: the loop *)

Section IndexLoop.
Import Py Helpers Fusion Spec.

Variables chunk_duration chunk_overlap : Q.

Let step' := Indexing.step chunk_duration chunk_overlap.
Let loop' := Indexing.loop chunk_duration chunk_overlap.


(** A property that every returning iteration keeps holds after a loop
    that returns. *)
Lemma index_loop_preserves
      (P : list Indexing.accumulator * Indexing.accumulator -> Prop)
      (rest : list merged_segment) :
  (forall st seg st',
      In seg rest -> P st -> step' st seg = Returned st' -> P st') ->
  forall st st', P st -> loop' rest st = Returned st' -> P st'.
Proof.
  induction rest as [|seg rest IH]; intros Hstep st st' H Hrun.
  - cbn in Hrun. inversion Hrun; subst. exact H.
  - cbn in Hrun.
    destruct (Indexing.step _ _ st seg) as [st1|e] eqn:E;
      cbn in Hrun; [|discriminate].
    apply (IH (fun st0 seg0 st0' Hin => Hstep st0 seg0 st0' (or_intror Hin))
              st1 st'); [|exact Hrun].
    apply (Hstep st seg st1); [now left | exact H | exact E].
Qed.

(** The loop returns exactly when every segment has its ["speaker"]. *)
Lemma index_loop_returns (rest : list merged_segment) :
  Forall (fun seg => ms_speaker seg <> None) rest ->
  forall st, exists st', loop' rest st = Returned st'.
Proof.
  induction 1 as [|seg rest Hseg _ IH]; intros st; cbn.
  - eauto.
  - unfold Indexing.step. destruct st as [chunks cur].
    destruct (ms_speaker seg) as [sp|]; [|congruence].
    destruct (Indexing.flushes _ _ _ _); cbn [bind]; apply IH.
Qed.

Lemma index_loop_missing_speaker (rest : list merged_segment) :
  Exists (fun seg => ms_speaker seg = None) rest ->
  forall st, loop' rest st = Raised (KeyError "speaker").
Proof.
  induction rest as [|seg rest IH]; intros Hex st.
  - inversion Hex.
  - cbn. unfold Indexing.step. destruct st as [chunks cur].
    destruct (ms_speaker seg) as [sp|] eqn:E; [|reflexivity].
    assert (Hrest : Exists (fun seg => ms_speaker seg = None) rest).
    { inversion Hex; subst; [congruence | assumption]. }
    destruct (Indexing.flushes _ _ _ _); cbn [bind]; now apply IH.
Qed.



(** An iteration leaves an accumulator with a start; it has an end unless
    the iteration started a new chunk, whose text is then the segment's. *)
Lemma index_step_shape st seg st' :
  step' st seg = Returned st' ->
  (exists x, Indexing.acc_start (snd st') = Some x)
  /\ if Indexing.flushes chunk_duration
                         (get (Indexing.acc_start (snd st)) (ms_start seg))
                         (ms_end seg) (Indexing.acc_text (snd st))
     then Indexing.acc_end (snd st') = None
          /\ Indexing.acc_text (snd st') = ms_text seg
     else Indexing.acc_end (snd st') = Some (ms_end seg).
Proof.
  destruct st as [chunks cur]. unfold step', Indexing.step. cbn [snd].
  destruct (ms_speaker seg) as [sp|]; [|discriminate].
  destruct (Indexing.flushes _ _ _ _); intros H; inversion H; subst; cbn;
    eauto.
Qed.

End IndexLoop.

(** ** Indexing chunker: results *)

Section IndexResults.
Import Py Helpers Fusion Spec.


Lemma index_format_inv file i a c :
  Indexing.format_chunk file (i, a) = Returned c ->
  exists f s e,
    file = Some f
    /\ Indexing.acc_start a = Some s /\ Indexing.acc_end a = Some e
    /\ Indexing.id c = (f ++ "_" ++ decimal (Z.of_nat i))%string
    /\ Indexing.start c = round s 3
    /\ Indexing.end_ c = round e 3
    /\ Indexing.text c = strip (Indexing.acc_text a)
    /\ Indexing.speakers c = Indexing.acc_speakers a
    /\ Indexing.episode c = f.
Proof.
  unfold Indexing.format_chunk. destruct file as [f|]; [|discriminate].
  destruct (Indexing.acc_start a) as [s|]; cbn; [|discriminate].
  destruct (Indexing.acc_end a) as [e|]; cbn; [|discriminate].
  destruct (seconds_to_timestamp s true); cbn; [|discriminate].
  destruct (seconds_to_timestamp e true); cbn; [|discriminate].
  intros H. inversion H; subst. cbn.
  exists f, s, e. repeat split.
Qed.

(** What [create_chunks_with_accurate_timestamps] returns is, index by
    index, the formatting of the chunks that lines 36-81 collect. *)
Lemma create_chunks_inv transcript chunk_duration chunk_overlap chunks :
  Indexing.create_chunks_with_accurate_timestamps
    transcript chunk_duration chunk_overlap = Returned chunks ->
  exists segments raw,
    mt_segments transcript = Some segments
    /\ Indexing.collect (or_else chunk_duration Config.CHUNK_DURATION)
                        (or_else chunk_overlap Config.CHUNK_OVERLAP)
                        segments = Returned raw
    /\ List.length chunks = List.length raw
    /\ forall i c,
        nth_error chunks i = Some c ->
        exists a,
          nth_error raw i = Some a
          /\ Indexing.format_chunk (mt_file transcript) (i, a) = Returned c.
Proof.
  unfold Indexing.create_chunks_with_accurate_timestamps.
  destruct (mt_segments transcript) as [segments|]; [|discriminate].
  destruct (Indexing.collect _ _ segments) as [raw|] eqn:E; cbn [bind];
    [|discriminate].
  intros H. apply traverse_enumerate_nth in H as [Hlen Hnth].
  exists segments, raw. repeat split; assumption.
Qed.

Lemma index_collect_inv chunk_duration chunk_overlap segments raw :
  Indexing.collect chunk_duration chunk_overlap segments = Returned raw ->
  exists st,
    Indexing.loop chunk_duration chunk_overlap segments
                  ([], Indexing.empty_accumulator) = Returned st
    /\ raw = if nonempty (Indexing.acc_text (snd st))
             then fst st ++ [snd st] else fst st.
Proof.
  unfold Indexing.collect.
  destruct (Indexing.loop _ _ _ _) as [[chunks cur]|]; cbn; [|discriminate].
  intros H. inversion H; subst. eexists. split; reflexivity.
Qed.

End IndexResults.



(** X3.  The indexing chunker subscripts ["speaker"]: one segment without
    it, anywhere in the list, makes the call raise [KeyError("speaker")],
    where [chunk_transcript] files such a segment under ["UNKNOWN"]. *)
Theorem create_chunks_missing_speaker_raises
        (transcript : Fusion.merged_transcript)
        (chunk_duration chunk_overlap : option Q)
        (segments : list Fusion.merged_segment) :
  Fusion.mt_segments transcript = Some segments ->
  Exists (fun seg => Fusion.ms_speaker seg = None) segments ->
  Indexing.create_chunks_with_accurate_timestamps
    transcript chunk_duration chunk_overlap
  = Py.Raised (Py.KeyError "speaker").
Proof.
  intros Hsegs Hex.
  unfold Indexing.create_chunks_with_accurate_timestamps, Indexing.collect.
  rewrite Hsegs, (index_loop_missing_speaker _ _ _ Hex). reflexivity.
Qed.

(** ** Indexing chunker: what the chunks carry *)

Section IndexInvariants.
Import Py Helpers Fusion Spec.

Variables chunk_duration chunk_overlap : Q.

Lemma round_nonneg (q : Q) (ndigits : nat) : 0 <= q -> 0 <= round q ndigits.
Proof.
  intros Hq. unfold round, Qle. cbn [Qnum Qden].
  rewrite Z.mul_1_r. cbn [Z.mul].
  apply round_half_even_ge. change (inject_Z 0) with 0.
  apply Qmult_le_0_compat; [exact Hq|]. unfold inject_Z, Qle. cbn. lia.
Qed.

Lemma index_loop_nonneg (rest : list merged_segment) :
  forall st st',
    nonneg_state st ->
    (Indexing.acc_start (snd st) = None ->
     match rest with
     | [] => True
     | seg :: _ => 0 <= ms_start seg
     end) ->
    Indexing.loop chunk_duration chunk_overlap rest st = Returned st' ->
    nonneg_state st'.
Proof.
  induction rest as [|seg rest IH]; intros st st' Hst Hfirst Hrun.
  - cbn in Hrun. inversion Hrun; subst. exact Hst.
  - cbn in Hrun.
    destruct (Indexing.step _ _ st seg) as [st1|e] eqn:E;
      cbn in Hrun; [|discriminate].
    apply (IH st1 st'); [| |exact Hrun].
    + destruct st as [chunks cur]. destruct Hst as [Hsaved Hcur].
      cbn [fst snd] in *.
      assert (Hget : 0 <= get (Indexing.acc_start cur) (ms_start seg)).
      { destruct (Indexing.acc_start cur) as [x|]; cbn;
          [now apply Hcur | now apply Hfirst]. }
      unfold Indexing.step in E.
      destruct (ms_speaker seg); [|discriminate].
      destruct (Indexing.flushes _ _ _ _); inversion E; subst;
        split; cbn [fst snd Indexing.acc_start].
      * apply Forall_app. split; [exact Hsaved|].
        constructor; [|constructor]. cbn. intros x Hx.
        inversion Hx; subst. exact Hget.
      * intros x Hx. inversion Hx; subst. apply max_0_nonneg.
      * exact Hsaved.
      * intros x Hx. inversion Hx; subst. exact Hget.
    + intros Hnone.
      destruct (index_step_shape _ _ _ _ _ E) as [[x Hx] _]. congruence.
Qed.

Lemma set_add_nonempty x s : set_add x s <> [].
Proof.
  unfold set_add. destruct (existsb _ s) eqn:E.
  - destruct s; [discriminate|discriminate].
  - destruct s; discriminate.
Qed.

Lemma set_add_NoDup x s : NoDup s -> NoDup (set_add x s).
Proof.
  intros Hs. unfold set_add. destruct (existsb _ s) eqn:E; [exact Hs|].
  assert (Hnot : ~ In x s).
  { intros Hin. apply Bool.not_true_iff_false in E. apply E.
    apply existsb_exists. exists x. split; [exact Hin|].
    apply String.eqb_refl. }
  clear E. induction Hs as [|y s Hy Hs IH]; cbn.
  - constructor; [intros []|constructor].
  - constructor.
    + intros Hin. apply in_app_or in Hin as [Hin | [<- | []]];
        [contradiction|]. apply Hnot. now left.
    + apply IH. intros Hin. apply Hnot. now right.
Qed.

Lemma index_step_speakers st seg st' :
  speakers_state st ->
  Indexing.step chunk_duration chunk_overlap st seg = Returned st' ->
  speakers_state st'.
Proof.
  destruct st as [chunks cur]. intros (Hsaved & Hnd & Hne).
  cbn [fst snd] in *. unfold Indexing.step.
  destruct (ms_speaker seg) as [sp|]; [|discriminate].
  destruct (Indexing.flushes _ _ _ _) eqn:F; intros H; inversion H; subst;
    unfold speakers_state;
    cbn [fst snd Indexing.acc_speakers Indexing.acc_text].
  - apply andb_true_iff in F as [_ F]. split; [|split].
    + apply Forall_app. split; [exact Hsaved|].
      constructor; [|constructor]. split; cbn; [now apply Hne | exact Hnd].
    + constructor; [intros []|constructor].
    + intros _. discriminate.
  - split; [exact Hsaved|]. split.
    + now apply set_add_NoDup.
    + intros _. apply set_add_nonempty.
Qed.

Lemma index_collect_speakers segments raw :
  Indexing.collect chunk_duration chunk_overlap segments = Returned raw ->
  Forall has_speakers raw.
Proof.
  intros H. apply index_collect_inv in H as (st & Hloop & ->).
  assert (Hst : speakers_state st).
  { apply (index_loop_preserves _ _ speakers_state segments)
      with (3 := Hloop).
    - intros st0 seg st0' _. apply index_step_speakers.
    - split; [constructor|]. split; [constructor|]. cbn. discriminate. }
  destruct st as [chunks cur]. destruct Hst as (Hsaved & Hnd & Hne).
  cbn [fst snd] in *.
  destruct (nonempty (Indexing.acc_text cur)) eqn:N; [|exact Hsaved].
  apply Forall_app. split; [exact Hsaved|].
  constructor; [|constructor]. split; [now apply Hne | exact Hnd].
Qed.

Lemma index_collect_nonneg segments first raw :
  hd_error segments = Some first -> 0 <= ms_start first ->
  Indexing.collect chunk_duration chunk_overlap segments = Returned raw ->
  Forall (fun a => forall x, Indexing.acc_start a = Some x -> 0 <= x) raw.
Proof.
  intros Hhd H0 H. apply index_collect_inv in H as (st & Hloop & ->).
  assert (Hst : nonneg_state st).
  { apply (index_loop_nonneg segments) with (3 := Hloop).
    - split; [constructor|]. cbn. discriminate.
    - intros _. destruct segments as [|seg rest]; [exact I|].
      cbn in Hhd. inversion Hhd; subst. exact H0. }
  destruct st as [chunks cur]. destruct Hst as [Hsaved Hcur].
  cbn [fst snd] in *.
  destruct (nonempty (Indexing.acc_text cur)); [|exact Hsaved].
  apply Forall_app. split; [exact Hsaved | now constructor].
Qed.

End IndexInvariants.

(** X4.  When the first segment does not start before time 0, no chunk of
    the indexing chunker does: the overlap never moves a chunk start below
    zero. *)
Theorem create_chunks_starts_nonnegative
        (transcript : Fusion.merged_transcript)
        (chunk_duration chunk_overlap : option Q)
        (segments : list Fusion.merged_segment)
        (first : Fusion.merged_segment)
        (chunks : list Indexing.chunk) :
  Fusion.mt_segments transcript = Some segments ->
  hd_error segments = Some first ->
  0 <= Fusion.ms_start first ->
  Indexing.create_chunks_with_accurate_timestamps
    transcript chunk_duration chunk_overlap = Py.Returned chunks ->
  forall c, In c chunks -> 0 <= Indexing.start c.
Proof.
  intros Hsegs Hhd H0 Hret c Hc.
  apply create_chunks_inv in Hret
    as (segments' & raw & Hsegs' & Hraw & _ & Hnth).
  rewrite Hsegs in Hsegs'. inversion Hsegs'; subst segments'.
  apply In_nth_error in Hc as [i Hi].
  destruct (Hnth i c Hi) as (a & Ha & Hf).
  apply index_format_inv in Hf
    as (f & s & e & _ & Hs & _ & _ & Hstart & _).
  rewrite Hstart. apply round_nonneg.
  pose proof (index_collect_nonneg _ _ _ _ _ Hhd H0 Hraw) as Hall.
  rewrite Forall_forall in Hall.
  apply (Hall a); [now apply nth_error_In with i | exact Hs].
Qed.

(** X5.  Every chunk of the indexing chunker names at least one speaker,
    and none twice. *)
Theorem create_chunks_speakers_nonempty_unique
        (transcript : Fusion.merged_transcript)
        (chunk_duration chunk_overlap : option Q)
        (chunks : list Indexing.chunk) :
  Indexing.create_chunks_with_accurate_timestamps
    transcript chunk_duration chunk_overlap = Py.Returned chunks ->
  forall c,
    In c chunks ->
    Indexing.speakers c <> [] /\ NoDup (Indexing.speakers c).
Proof.
  intros Hret c Hc.
  apply create_chunks_inv in Hret as (segments & raw & _ & Hraw & _ & Hnth).
  apply In_nth_error in Hc as [i Hi].
  destruct (Hnth i c Hi) as (a & Ha & Hf).
  apply index_format_inv in Hf
    as (f & s & e & _ & _ & _ & _ & _ & _ & _ & Hsp & _).
  rewrite Hsp.
  pose proof (index_collect_speakers _ _ _ _ Hraw) as Hall.
  rewrite Forall_forall in Hall.
  apply (Hall a). now apply nth_error_In with i.
Qed.

(** ** Indexing chunker: identifiers *)

Section Identifiers.
Import Py Helpers Fusion.

Lemma append_inj_l (a b c : string) :
  (a ++ b)%string = (a ++ c)%string -> b = c.
Proof.
  induction a as [|x a IH]; cbn; intros H; [exact H|].
  inversion H. now apply IH.
Qed.

(** [str] is injective on the natural numbers. *)
Lemma decimal_inj (n m : Z) :
  (0 <= n)%Z -> (0 <= m)%Z -> decimal n = decimal m -> n = m.
Proof.
  intros Hn Hm H. unfold decimal in H.
  assert (E : Z.to_N n = Z.to_N m); [|lia].
  rewrite <- (DecimalN.Unsigned.of_to (Z.to_N n)).
  rewrite <- (DecimalN.Unsigned.of_to (Z.to_N m)).
  generalize dependent (N.to_uint (Z.to_N m)).
  generalize (N.to_uint (Z.to_N n)). clear.
  intros a b H.
  assert (Ha : NilZero.uint_of_string (NilZero.string_of_uint a)
               = NilZero.uint_of_string (NilZero.string_of_uint b))
    by now rewrite H.
  clear H.
  destruct a; destruct b;
    try reflexivity;
    try (rewrite !NilZero.usu in Ha by discriminate;
         inversion Ha; reflexivity);
    try (rewrite NilZero.usu_nil in Ha;
         rewrite NilZero.usu in Ha by discriminate;
         inversion Ha; reflexivity).
Qed.

End Identifiers.

(** X6.  The identifiers of the chunks returned for one transcript are
    the file name, an underscore and the position of the chunk, and no two
    chunks share one. *)
Theorem create_chunks_ids_distinct
        (transcript : Fusion.merged_transcript)
        (chunk_duration chunk_overlap : option Q)
        (chunks : list Indexing.chunk) :
  Indexing.create_chunks_with_accurate_timestamps
    transcript chunk_duration chunk_overlap = Py.Returned chunks ->
  forall i j ci cj,
    nth_error chunks i = Some ci ->
    nth_error chunks j = Some cj ->
    (exists file,
        Fusion.mt_file transcript = Some file
        /\ Indexing.id ci
           = (file ++ "_" ++ Helpers.decimal (Z.of_nat i))%string)
    /\ (Indexing.id ci = Indexing.id cj -> i = j).
Proof.
  intros Hret i j ci cj Hi Hj.
  apply create_chunks_inv in Hret as (segments & raw & _ & _ & _ & Hnth).
  destruct (Hnth i ci Hi) as (a & _ & Hfi).
  destruct (Hnth j cj Hj) as (b & _ & Hfj).
  apply index_format_inv in Hfi as (f & ? & ? & Hf & _ & _ & Hidi & _).
  apply index_format_inv in Hfj as (f' & ? & ? & Hf' & _ & _ & Hidj & _).
  split; [exists f; now split|].
  rewrite Hf in Hf'. inversion Hf'; subst f'.
  rewrite Hidi, Hidj. intros E.
  apply append_inj_l in E. cbn in E. inversion E as [E'].
  apply decimal_inj in E'; lia.
Qed.

(** ** Stored speakers *)

Section StoredSpeakers.
Import Py Helpers.

(** Splitting at the separator undoes joining with it, for a non-empty
    list of parts that do not contain it. *)
Lemma split_join sep (l : list string) :
  l <> [] ->
  Forall (fun p => contains sep p = false) l ->
  split sep (join (String sep EmptyString) l) = l.
Proof.
  intros Hne Hall. induction Hall as [|p l Hp Hl IH]; [congruence|].
  destruct l as [|q l].
  - cbn. now apply split_no_sep.
  - cbn [join]. cbn [append].
    rewrite (split_app sep p _ Hp). f_equal. apply IH. discriminate.
Qed.

End StoredSpeakers.

(** X7.  What indexing stores for a chunk, retrieval reads back: the
    episode and the two time stamps as they are, and the speakers, joined
    with commas at line 138 and split at commas at line 67, as the same
    list, provided no speaker label contains a comma (the list is never
    empty for a chunk of the indexing chunker). *)
Theorem stored_chunk_reads_back
        (c : Indexing.chunk) (hit_id document : string) (distance : Q) :
  Indexing.speakers c <> [] ->
  Forall (fun label => Helpers.contains ","%char label = false)
         (Indexing.speakers c) ->
  let r := Retrieval.format_result hit_id document
                                   (Indexing.chunk_metadata c) distance in
  Retrieval.r_speakers r = Indexing.speakers c
  /\ Retrieval.r_episode r = Indexing.episode c
  /\ Retrieval.r_timestamp_start r = Indexing.timestamp_start c
  /\ Retrieval.r_timestamp_end r = Indexing.timestamp_end c.
Proof.
  intros Hne Hall. cbn. repeat split.
  now apply (split_join ","%char).
Qed.

(** ** Batch indexing *)

Section Batch.
Import Py Fusion Indexing.

Context {world collection : Type}.
Variable initialize_collection :
  option string -> world -> outcome collection * world.
Variable collection_add :
  collection -> list string -> list string -> list metadata -> world
  -> outcome unit * world.
Variable load_json : string -> world -> outcome merged_transcript * world.
Variable name_of : string -> string.
Variable collection_name : option string.

Let step' :=
  batch_step initialize_collection collection_add load_json name_of
             collection_name.

(** What [index_transcript] returns is a count. *)
Lemma index_transcript_nonneg transcript w n w' :
  index_transcript initialize_collection collection_add transcript
                   collection_name w = (Returned n, w') ->
  (0 <= n)%Z.
Proof.
  unfold index_transcript.
  destruct (initialize_collection collection_name w) as [[c|e] w1];
    [|discriminate].
  destruct (mt_file transcript); [|discriminate].
  destruct (create_chunks_with_accurate_timestamps _ _ _) as [[|c0 cs]|e];
    [| |discriminate].
  - intros H. inversion H. lia.
  - destruct (collection_add _ _ _ _ _) as [[u|e] w2]; [|discriminate].
    intros H. inversion H. lia.
Qed.

(** Every file is counted once, as a success or as a failure. *)
Lemma batch_fold_counts (files : list string) :
  forall success total_chunks failed w,
    (0 <= total_chunks)%Z ->
    let '(success', total_chunks', failed', _) :=
      fold_left step' files (success, total_chunks, failed, w) in
    (success' + Z.of_nat (List.length failed')
     = success + Z.of_nat (List.length failed)
       + Z.of_nat (List.length files))%Z
    /\ (success <= success')%Z
    /\ (0 <= total_chunks')%Z.
Proof.
  induction files as [|file files IH]; intros success total_chunks failed w Ht.
  - cbn. lia.
  - cbn [fold_left]. unfold step' at 2, batch_step.
    destruct (load_json file w) as [[transcript|e] w1].
    + destruct (index_transcript _ _ transcript collection_name w1)
        as [[n|e] w2] eqn:E.
      * apply index_transcript_nonneg in E.
        specialize (IH (success + 1)%Z (total_chunks + n)%Z failed w2).
        destruct (fold_left _ _ _) as [[[s' t'] f'] w'].
        cbn [List.length]. lia.
      * specialize (IH success total_chunks (failed ++ [name_of file]) w2 Ht).
        destruct (fold_left _ _ _) as [[[s' t'] f'] w'].
        rewrite length_app in IH. cbn [List.length] in *. lia.
    + specialize (IH success total_chunks (failed ++ [name_of file]) w1 Ht).
      destruct (fold_left _ _ _) as [[[s' t'] f'] w'].
      rewrite length_app in IH. cbn [List.length] in *. lia.
Qed.

End Batch.

(** X8.  Once the collection is there, [batch_index_transcripts] returns
    its statistics whatever happens to the single files: the total is the
    number of files found, every file counts either as a success or as a
    failure, the list of failed files has as many names as there are
    failures, and no count is negative. *)
Theorem batch_index_counts_every_file
        (world collection : Type)
        (initialize_collection :
           option string -> world -> Py.outcome collection * world)
        (collection_add :
           collection -> list string -> list string
           -> list Indexing.metadata -> world -> Py.outcome unit * world)
        (load_json :
           string -> world -> Py.outcome Fusion.merged_transcript * world)
        (glob_json : option string -> world -> list string)
        (name_of : string -> string)
        (transcript_dir collection_name : option string)
        (w w1 : world) (c : collection) :
  initialize_collection collection_name w = (Py.Returned c, w1) ->
  exists stats w',
    Indexing.batch_index_transcripts
      initialize_collection collection_add load_json glob_json name_of
      transcript_dir collection_name w
    = (Py.Returned stats, w')
    /\ Indexing.st_total stats
       = Z.of_nat (List.length (glob_json transcript_dir w1))
    /\ (Indexing.st_success stats + Indexing.st_failed stats
        = Indexing.st_total stats)%Z
    /\ (0 <= Indexing.st_success stats)%Z
    /\ (0 <= Indexing.st_failed stats)%Z
    /\ (0 <= Indexing.st_total_chunks stats)%Z
    /\ forall failed_files,
        Indexing.st_failed_files stats = Some failed_files ->
        Z.of_nat (List.length failed_files) = Indexing.st_failed stats.
Proof.
  intros Hinit. unfold Indexing.batch_index_transcripts. rewrite Hinit.
  destruct (glob_json transcript_dir w1) as [|file files] eqn:G.
  - eexists. eexists. split; [reflexivity|]. cbn.
    repeat split; try lia. discriminate.
  - pose proof (batch_fold_counts initialize_collection collection_add
                  load_json name_of collection_name (file :: files)
                  0%Z 0%Z [] w1 (Z.le_refl 0)) as H.
    destruct (fold_left _ _ _) as [[[s' t'] f'] w'].
    eexists. eexists. split; [reflexivity|].
    cbn [Indexing.st_total Indexing.st_success Indexing.st_failed
         Indexing.st_total_chunks Indexing.st_failed_files].
    cbn [List.length] in *.
    repeat split; try lia.
    intros l Hl. now inversion Hl.
Qed.

(** ** Rounding *)

Section Rounding.
Import Py.

(** Rounding half-even moves a value by at most one half. *)
Lemma round_half_even_close (q : Q) :
  inject_Z (round_half_even q) - q <= 1 # 2
  /\ q - inject_Z (round_half_even q) <= 1 # 2.
Proof.
  unfold round_half_even.
  pose proof (Qfloor_le q) as Hf. pose proof (Qlt_floor q) as Hc.
  rewrite inject_Z_plus in Hc. change (inject_Z 1) with 1 in Hc.
  set (f := Qfloor q) in *. clearbody f.
  destruct (ltb (q - inject_Z f) (1 # 2)) eqn:E1.
  - apply ltb_lt in E1. split; lra.
  - apply ltb_ge in E1.
    assert (Hup : inject_Z (f + 1) - q <= 1 # 2
                  /\ q - inject_Z (f + 1) <= 1 # 2).
    { rewrite inject_Z_plus. change (inject_Z 1) with 1. split; lra. }
    destruct (ltb (1 # 2) (q - inject_Z f)) eqn:E2; [exact Hup|].
    apply ltb_ge in E2.
    destruct (Z.even f); [split; lra | exact Hup].
Qed.

(** Rounding half-even keeps the order. *)
Lemma round_half_even_monotone (p q : Q) :
  p <= q -> (round_half_even p <= round_half_even q)%Z.
Proof.
  intros Hpq.
  pose proof (Qfloor_resp_le p q Hpq) as Hfl.
  destruct (Z.eq_dec (Qfloor p) (Qfloor q)) as [E | NE].
  - unfold round_half_even. rewrite <- E.
    set (f := Qfloor p) in *. clearbody f.
    destruct (ltb (p - inject_Z f) (1 # 2)) eqn:P1.
    + destruct (ltb (q - inject_Z f) (1 # 2)); [lia|].
      destruct (ltb (1 # 2) (q - inject_Z f)); [lia|].
      destruct (Z.even f); lia.
    + apply ltb_ge in P1.
      assert (Q1 : ltb (q - inject_Z f) (1 # 2) = false)
        by (apply ltb_ge; lra).
      rewrite Q1.
      destruct (ltb (1 # 2) (p - inject_Z f)) eqn:P2.
      * apply ltb_lt in P2.
        assert (Q2 : ltb (1 # 2) (q - inject_Z f) = true)
          by (apply ltb_lt; lra).
        rewrite Q2. lia.
      * destruct (ltb (1 # 2) (q - inject_Z f)); [destruct (Z.even f); lia|].
        lia.
  - assert (Hlt : (Qfloor p + 1 <= Qfloor q)%Z) by lia.
    assert (Hp : (round_half_even p <= Qfloor p + 1)%Z).
    { apply round_half_even_le. pose proof (Qlt_floor p). lra. }
    assert (Hq : (Qfloor q <= round_half_even q)%Z).
    { apply round_half_even_ge. apply Qfloor_le. }
    lia.
Qed.



End Rounding.

(** ** Binary floating point *)

Section FloatFacts.
Import Py.

Lemma pow2_pos (k : Z) : 0 < pow2 k.
Proof. apply Qpower_0_lt. reflexivity. Qed.

Lemma pow2_add (a b : Z) : pow2 (a + b) == pow2 a * pow2 b.
Proof. apply Qpower_plus. discriminate. Qed.

Lemma pow2_inject (k : Z) : (0 <= k)%Z -> pow2 k == inject_Z (2 ^ k).
Proof. intros H. unfold pow2. now rewrite Zpower_Qpower. Qed.

Lemma pow2_le (a b : Z) : (a <= b)%Z -> pow2 a <= pow2 b.
Proof. intros H. apply Qpower_le_compat_l; [exact H | discriminate]. Qed.

Lemma pow2_lt_inv (a b : Z) : pow2 a < pow2 b -> (a < b)%Z.
Proof. intros H. apply (Qpower_lt_compat_l_inv 2); [exact H | reflexivity]. Qed.

(** The exponent brackets the number. *)
Lemma ilog2_spec (q : Q) :
  0 < q -> pow2 (ilog2 q) <= q /\ q < pow2 (ilog2 q + 1).
Proof.
  intros Hq. destruct q as [n d].
  assert (Hn : (0 < n)%Z).
  { unfold Qlt in Hq. cbn in Hq. lia. }
  unfold ilog2. cbn [Qnum Qden].
  set (a := Z.log2 n). set (b := Z.log2 (Z.pos d)).
  destruct (Z.log2_spec n Hn) as [Ha1 Ha2]. fold a in Ha1, Ha2.
  destruct (Z.log2_spec (Z.pos d) eq_refl) as [Hb1 Hb2]. fold b in Hb1, Hb2.
  assert (Ha0 : (0 <= a)%Z) by apply Z.log2_nonneg.
  assert (Hb0 : (0 <= b)%Z) by apply Z.log2_nonneg.
  assert (Hqd : (n # d) * inject_Z (Z.pos d) == inject_Z n).
  { unfold Qeq, Qmult, inject_Z. cbn. lia. }
  assert (Hpb : pow2 b <= inject_Z (Z.pos d)).
  { rewrite pow2_inject by assumption. now rewrite <- Zle_Qle. }
  assert (Hpb' : inject_Z (Z.pos d) < pow2 (b + 1)).
  { rewrite pow2_inject by lia. rewrite <- Zlt_Qlt.
    now rewrite <- Z.add_1_r in Hb2. }
  assert (Hpa : pow2 a <= inject_Z n).
  { rewrite pow2_inject by assumption. now rewrite <- Zle_Qle. }
  assert (Hpa' : inject_Z n < pow2 (a + 1)).
  { rewrite pow2_inject by lia. rewrite <- Zlt_Qlt.
    now rewrite <- Z.add_1_r in Ha2. }
  pose proof (pow2_pos b) as Pb. pose proof (pow2_pos (b + 1)) as Pb1.
  destruct (Qle_bool (pow2 (a - b)) (n # d)) eqn:E.
  - apply Qle_bool_iff in E. split; [exact E|].
    assert (H : pow2 (a - b + 1) * pow2 b == pow2 (a + 1)).
    { rewrite <- pow2_add.
      now replace (a - b + 1 + b)%Z with (a + 1)%Z by lia. }
    apply Qmult_lt_r with (z := pow2 b); [exact Pb|].
    rewrite H.
    apply Qle_lt_trans with (y := (n # d) * inject_Z (Z.pos d)).
    + apply Qmult_le_l; [exact Hq | exact Hpb].
    + rewrite Hqd. exact Hpa'.
  - assert (E' : n # d < pow2 (a - b)).
    { apply Qnot_le_lt. intros H. apply Qle_bool_iff in H. congruence. }
    replace (a - b - 1 + 1)%Z with (a - b)%Z by lia.
    split; [|exact E'].
    assert (H : pow2 (a - b - 1) * pow2 (b + 1) == pow2 a).
    { rewrite <- pow2_add.
      now replace (a - b - 1 + (b + 1))%Z with a by lia. }
    apply Qmult_le_r with (z := pow2 (b + 1)); [exact Pb1|].
    rewrite H.
    apply Qle_trans with (y := inject_Z n); [exact Hpa|].
    rewrite <- Hqd. apply Qmult_le_l; [exact Hq|]. now apply Qlt_le_weak.
Qed.

Lemma ilog2_monotone (p q : Q) : 0 < p -> p <= q -> (ilog2 p <= ilog2 q)%Z.
Proof.
  intros Hp Hpq.
  destruct (ilog2_spec p Hp) as [Hp1 _].
  destruct (ilog2_spec q) as [_ Hq2]; [lra|].
  assert (H : pow2 (ilog2 p) < pow2 (ilog2 q + 1)) by lra.
  apply pow2_lt_inv in H. lia.
Qed.

Lemma last_bit_monotone (p q : Q) :
  0 < p -> p <= q -> (last_bit p <= last_bit q)%Z.
Proof.
  intros Hp Hpq. pose proof (ilog2_monotone p q Hp Hpq).
  unfold last_bit. lia.
Qed.

(** Scaling by a power of two and back. *)
Lemma pow2_cancel (k : Z) : pow2 (- k) * pow2 k == 1.
Proof. rewrite <- pow2_add. now replace (- k + k)%Z with 0%Z by lia. Qed.

Lemma round_magnitude_nonneg (a : Q) : 0 <= a -> 0 <= round_magnitude a.
Proof.
  intros Ha. unfold round_magnitude.
  set (k := last_bit a).
  pose proof (pow2_pos k) as Pk. pose proof (pow2_pos (- k)) as Pk'.
  apply Qmult_le_0_compat; [|now apply Qlt_le_weak].
  change 0 with (inject_Z 0). rewrite <- Zle_Qle.
  apply round_half_even_ge. change (inject_Z 0) with 0.
  apply Qmult_le_0_compat; [exact Ha | now apply Qlt_le_weak].
Qed.

(** A magnitude below a power of two of the grid rounds to at most that
    power, and one above it to at least that power. *)
Lemma round_magnitude_le (a : Q) (u : Z) :
  (last_bit a <= u)%Z -> a <= pow2 u -> round_magnitude a <= pow2 u.
Proof.
  intros Hu Ha. unfold round_magnitude.
  set (k := last_bit a) in *.
  pose proof (pow2_pos k) as Pk. pose proof (pow2_pos (- k)) as Pk'.
  assert (Hs : pow2 u == inject_Z (2 ^ (u - k)) * pow2 k).
  { rewrite <- pow2_inject by lia. rewrite <- pow2_add.
    now replace (u - k + k)%Z with u by lia. }
  rewrite Hs. apply Qmult_le_r; [exact Pk|].
  rewrite <- Zle_Qle. apply round_half_even_le.
  rewrite <- pow2_inject by lia.
  replace (u - k)%Z with (u + - k)%Z by lia. rewrite pow2_add.
  apply Qmult_le_r; [exact Pk' | exact Ha].
Qed.

Lemma round_magnitude_ge (a : Q) (u : Z) :
  (last_bit a <= u)%Z -> pow2 u <= a -> pow2 u <= round_magnitude a.
Proof.
  intros Hu Ha. unfold round_magnitude.
  set (k := last_bit a) in *.
  pose proof (pow2_pos k) as Pk. pose proof (pow2_pos (- k)) as Pk'.
  assert (Hs : pow2 u == inject_Z (2 ^ (u - k)) * pow2 k).
  { rewrite <- pow2_inject by lia. rewrite <- pow2_add.
    now replace (u - k + k)%Z with u by lia. }
  rewrite Hs. apply Qmult_le_r; [exact Pk|].
  rewrite <- Zle_Qle. apply round_half_even_ge.
  rewrite <- pow2_inject by lia.
  replace (u - k)%Z with (u + - k)%Z by lia. rewrite pow2_add.
  apply Qmult_le_r; [exact Pk' | exact Ha].
Qed.

(** Rounding keeps the order of two magnitudes. *)
Lemma round_magnitude_monotone (p q : Q) :
  0 < p -> p <= q -> round_magnitude p <= round_magnitude q.
Proof.
  intros Hp Hpq.
  assert (Hq : 0 < q) by lra.
  pose proof (last_bit_monotone p q Hp Hpq) as Hk.
  destruct (Z.eq_dec (last_bit p) (last_bit q)) as [E | NE].
  - unfold round_magnitude. rewrite E.
    set (k := last_bit q).
    pose proof (pow2_pos k) as Pk. pose proof (pow2_pos (- k)) as Pk'.
    apply Qmult_le_r; [exact Pk|].
    rewrite <- Zle_Qle. apply round_half_even_monotone.
    apply Qmult_le_r; [exact Pk' | exact Hpq].
  - destruct (ilog2_spec p Hp) as [_ Hp2].
    destruct (ilog2_spec q Hq) as [Hq1 _].
    pose proof (ilog2_monotone p q Hp Hpq) as He.
    assert (Hlast : last_bit q = (ilog2 q - 52)%Z /\ (ilog2 p + 1 <= ilog2 q)%Z).
    { unfold last_bit in *. lia. }
    destruct Hlast as [Hkq Hlt].
    set (u := Z.max (ilog2 p + 1) (last_bit p)).
    apply Qle_trans with (y := pow2 u).
    + apply round_magnitude_le; [unfold u; lia|].
      apply Qle_trans with (y := pow2 (ilog2 p + 1));
        [now apply Qlt_le_weak | apply pow2_le; unfold u; lia].
    + apply Qle_trans with (y := pow2 (ilog2 q)).
      * apply pow2_le. unfold u. lia.
      * apply round_magnitude_ge; [lia | exact Hq1].
Qed.

Lemma to_double_nonpos (q : Q) : q <= 0 -> to_double q <= 0.
Proof.
  intros H. unfold to_double.
  destruct (Qeq_bool q 0) eqn:E; [apply Qle_refl|].
  destruct (ltb q 0) eqn:L.
  - pose proof (round_magnitude_nonneg (- q)) as Hm. lra.
  - apply ltb_ge in L. exfalso.
    assert (Hq : q == 0) by lra.
    apply Qeq_bool_iff in Hq. congruence.
Qed.

Lemma to_double_nonneg (q : Q) : 0 <= q -> 0 <= to_double q.
Proof.
  intros H. unfold to_double.
  destruct (Qeq_bool q 0) eqn:E; [apply Qle_refl|].
  apply ltb_ge in H as L. rewrite L.
  now apply round_magnitude_nonneg.
Qed.

(** Rounding to the nearest double keeps the order. *)
Lemma to_double_monotone (p q : Q) : p <= q -> to_double p <= to_double q.
Proof.
  intros Hpq.
  destruct (Qlt_le_dec p 0) as [Hp | Hp].
  - destruct (Qlt_le_dec q 0) as [Hq | Hq].
    + unfold to_double.
      assert (Ep : Qeq_bool p 0 = false).
      { destruct (Qeq_bool p 0) eqn:E; [|reflexivity].
        apply Qeq_bool_iff in E. lra. }
      assert (Eq : Qeq_bool q 0 = false).
      { destruct (Qeq_bool q 0) eqn:E; [|reflexivity].
        apply Qeq_bool_iff in E. lra. }
      rewrite Ep, Eq.
      apply ltb_lt in Hp as Lp. apply ltb_lt in Hq as Lq. rewrite Lp, Lq.
      assert (H : round_magnitude (- q) <= round_magnitude (- p)).
      { apply round_magnitude_monotone; lra. }
      lra.
    + apply Qle_trans with (y := 0).
      * apply to_double_nonpos. now apply Qlt_le_weak.
      * now apply to_double_nonneg.
  - destruct (Qeq_dec p 0) as [Z0 | NZ].
    + apply Qle_trans with (y := 0).
      * apply to_double_nonpos. lra.
      * apply to_double_nonneg. lra.
    + assert (Hp' : 0 < p).
      { apply Qle_lteq in Hp as [Hp|Hp]; [exact Hp|]. exfalso. apply NZ.
        now symmetry. }
      unfold to_double.
      assert (Ep : Qeq_bool p 0 = false).
      { destruct (Qeq_bool p 0) eqn:E; [|reflexivity].
        apply Qeq_bool_iff in E. contradiction. }
      assert (Eq : Qeq_bool q 0 = false).
      { destruct (Qeq_bool q 0) eqn:E; [|reflexivity].
        apply Qeq_bool_iff in E. lra. }
      rewrite Ep, Eq.
      assert (Lp : ltb p 0 = false) by (apply ltb_ge; lra).
      assert (Lq : ltb q 0 = false) by (apply ltb_ge; lra).
      rewrite Lp, Lq. now apply round_magnitude_monotone.
Qed.

(** The difference of two floats is not positive when the first is not
    above the second. *)
Lemma float_sub_nonpos (a b : Q) : a <= b -> float_sub a b <= 0.
Proof.
  intros H. unfold float_sub. apply to_double_nonpos.
  pose proof (to_double_monotone a b H). lra.
Qed.


Lemma pow2_le_inv (a b : Z) : pow2 a <= pow2 b -> (a <= b)%Z.
Proof.
  intros H. apply (Qpower_le_compat_l_inv 2); [exact H | reflexivity].
Qed.

(** A magnitude that is a whole number of at most 53 bits times a power
    of two of the double range is kept by the rounding. *)
Lemma round_magnitude_fixed (r : Q) (m k : Z) :
  (0 < m <= 2 ^ 53)%Z -> (-1074 <= k)%Z -> r == inject_Z m * pow2 k ->
  round_magnitude r == r.
Proof.
  intros [Hm0 Hm] Hk Hr.
  pose proof (pow2_pos k) as Pk.
  assert (Hpos : 0 < r).
  { rewrite Hr. apply Qmult_lt_0_compat; [|exact Pk].
    change 0 with (inject_Z 0). now rewrite <- Zlt_Qlt. }
  destruct (ilog2_spec r Hpos) as [He1 He2].
  unfold round_magnitude. set (k' := last_bit r).
  pose proof (pow2_pos k') as Pk'. pose proof (pow2_cancel k') as Hc.
  assert (Hint : exists j, r * pow2 (- k') == inject_Z j).
  { destruct (Z_le_gt_dec k' k) as [Hle | Hgt].
    - exists (m * 2 ^ (k - k'))%Z.
      rewrite inject_Z_mult, <- pow2_inject by lia.
      rewrite Hr. replace (k - k')%Z with (k + - k')%Z by lia.
      rewrite pow2_add. ring.
    - exists (2 ^ 52)%Z.
      assert (Hk' : k' = (ilog2 r - 52)%Z) by (unfold k', last_bit in *; lia).
      assert (Hm53 : (2 ^ 53 <= m)%Z).
      { rewrite Zle_Qle. apply Qmult_le_r with (z := pow2 k); [exact Pk|].
        rewrite <- Hr. rewrite <- pow2_inject by lia. rewrite <- pow2_add.
        apply Qle_trans with (y := pow2 (ilog2 r));
          [apply pow2_le; lia | exact He1]. }
      assert (Hm' : m = (2 ^ 53)%Z) by lia.
      assert (Hr' : r == pow2 (53 + k)).
      { rewrite Hr, Hm', pow2_add. rewrite <- pow2_inject by lia.
        reflexivity. }
      assert (He : (ilog2 r <= 53 + k)%Z).
      { apply pow2_le_inv. rewrite <- Hr'. exact He1. }
      assert (Hk'' : k' = (k + 1)%Z) by lia.
      rewrite Hr', Hk'', <- pow2_add, <- pow2_inject by lia.
      now replace (53 + k + - (k + 1))%Z with 52%Z by lia. }
  destruct Hint as [j Hj].
  rewrite (round_half_even_integer _ j Hj). rewrite <- Hj.
  rewrite <- Qmult_assoc, Hc. ring.
Qed.

(** The rounded magnitude is such a number. *)
Lemma round_magnitude_grid (a : Q) :
  0 < a ->
  exists m, (0 <= m <= 2 ^ 53)%Z
            /\ round_magnitude a = inject_Z m * pow2 (last_bit a).
Proof.
  intros Ha. unfold round_magnitude.
  set (k := last_bit a).
  exists (round_half_even (a * pow2 (- k))). split; [|reflexivity].
  pose proof (pow2_pos (- k)) as Pk'.
  destruct (ilog2_spec a Ha) as [_ He].
  split.
  - apply round_half_even_ge. change (inject_Z 0) with 0.
    apply Qmult_le_0_compat; apply Qlt_le_weak; assumption.
  - apply round_half_even_le. rewrite <- pow2_inject by lia.
    apply Qle_trans with (y := pow2 (ilog2 a + 1) * pow2 (- k)).
    + apply Qmult_le_r; [exact Pk' | now apply Qlt_le_weak].
    + rewrite <- pow2_add. apply pow2_le. unfold k, last_bit. lia.
Qed.

Lemma last_bit_ge (a : Q) : (-1074 <= last_bit a)%Z.
Proof. unfold last_bit. lia. Qed.

(** The result of the rounding is a double. *)
Lemma to_double_is_double (q : Q) : Spec.is_double (to_double q).
Proof.
  unfold to_double.
  destruct (Qeq_bool q 0) eqn:E.
  - exists 0%Z, 0%Z. split; [discriminate|]. split; [lia | reflexivity].
  - assert (NZ : ~ q == 0).
    { intros H. apply Qeq_bool_iff in H. congruence. }
    destruct (ltb q 0) eqn:L.
    + apply ltb_lt in L.
      destruct (round_magnitude_grid (- q)) as (m & Hm & ->); [lra|].
      exists (- m)%Z, (last_bit (- q)).
      split; [lia|]. split; [apply last_bit_ge|].
      rewrite inject_Z_opp. ring.
    + apply ltb_ge in L.
      destruct (round_magnitude_grid q) as (m & Hm & ->).
      { apply Qle_lteq in L as [L|L]; [exact L|]. exfalso. apply NZ.
        now symmetry. }
      exists m, (last_bit q).
      split; [lia|]. split; [apply last_bit_ge | reflexivity].
Qed.

(** A double is kept by the rounding. *)
Lemma to_double_of_double (q : Q) : Spec.is_double q -> to_double q == q.
Proof.
  intros (m & k & Hm & Hk & Hq).
  pose proof (pow2_pos k) as Pk.
  unfold to_double.
  destruct (Qeq_bool q 0) eqn:E.
  - apply Qeq_bool_iff in E. now symmetry.
  - assert (NZ : ~ q == 0).
    { intros H. apply Qeq_bool_iff in H. congruence. }
    assert (Hm0 : m <> 0%Z).
    { intros ->. apply NZ. rewrite Hq. ring. }
    destruct (ltb q 0) eqn:L.
    + apply ltb_lt in L.
      assert (Hneg : (m < 0)%Z).
      { destruct (Z_lt_ge_dec m 0) as [H|H]; [exact H|]. exfalso.
        assert (0 <= inject_Z m) by (change 0 with (inject_Z 0);
                                     rewrite <- Zle_Qle; lia).
        assert (0 <= inject_Z m * pow2 k)
          by (apply Qmult_le_0_compat; [assumption | now apply Qlt_le_weak]).
        lra. }
      rewrite (round_magnitude_fixed (- q) (- m) k); [ring | lia | exact Hk |].
      rewrite Hq, inject_Z_opp. ring.
    + apply ltb_ge in L.
      assert (Hpos : (0 < m)%Z).
      { destruct (Z_lt_ge_dec 0 m) as [H|H]; [exact H|]. exfalso.
        assert (inject_Z m <= 0) by (change 0 with (inject_Z 0);
                                     rewrite <- Zle_Qle; lia).
        assert (Hle : inject_Z m * pow2 k <= 0 * pow2 k)
          by (apply Qmult_le_r; assumption).
        apply NZ. lra. }
      apply (round_magnitude_fixed q m k); [lia | exact Hk | exact Hq].
Qed.

(** Equal rationals round to the same double. *)
Lemma to_double_proper (p q : Q) : p == q -> to_double p == to_double q.
Proof.
  intros H. apply Qle_antisym; apply to_double_monotone; lra.
Qed.

(** On two doubles, the subtraction is the exact difference rounded
    once. *)
Lemma float_sub_doubles (a b : Q) :
  Spec.is_double a -> Spec.is_double b -> float_sub a b == to_double (a - b).
Proof.
  intros Ha Hb. unfold float_sub. apply to_double_proper.
  now rewrite (to_double_of_double a Ha), (to_double_of_double b Hb).
Qed.

(** The rounding moves a value by at most half of its last bit. *)
Lemma round_magnitude_close (a : Q) :
  Qabs (round_magnitude a - a) <= (1 # 2) * pow2 (last_bit a).
Proof.
  unfold round_magnitude. set (k := last_bit a).
  pose proof (pow2_pos k) as Pk. pose proof (pow2_cancel k) as Hc.
  destruct (round_half_even_close (a * pow2 (- k))) as [H1 H2].
  set (m := inject_Z (round_half_even (a * pow2 (- k)))) in *.
  assert (Ha : a == a * pow2 (- k) * pow2 k).
  { rewrite <- Qmult_assoc, Hc. ring. }
  apply Qabs_Qle_condition. split.
  - assert (H : (a * pow2 (- k) - m) * pow2 k <= (1 # 2) * pow2 k)
      by (apply Qmult_le_r; assumption).
    rewrite Ha at 1. lra.
  - assert (H : (m - a * pow2 (- k)) * pow2 k <= (1 # 2) * pow2 k)
      by (apply Qmult_le_r; assumption).
    rewrite Ha at 1. lra.
Qed.

End FloatFacts.

(** ** Overlap matcher: degenerate queries and order of the candidates *)

Section FindSpeakerMore.
Import Py Fusion.

(** A query that ends no later than it starts overlaps nothing. *)
Lemma overlap_degenerate (s e : Q) (seg : speaker_segment) :
  e <= s -> overlap s e seg == 0.
Proof.
  intros H. unfold overlap.
  assert (Hle : min e (sp_end seg) <= max s (sp_start seg)).
  { rewrite min_eq_Qmin, max_eq_Qmax.
    pose proof (Q.le_min_l e (sp_end seg)).
    pose proof (Q.le_max_l s (sp_start seg)). lra. }
  apply float_sub_nonpos in Hle.
  rewrite (max_eq_Qmax 0 (float_sub _ _)). apply Q.max_l. exact Hle.
Qed.

End FindSpeakerMore.

(** X9.  A query interval that ends no later than it starts is matched to
    no speaker: the result is ["UNKNOWN"], whatever the intervals. *)
Theorem find_speaker_degenerate_query
        (segment_start segment_end : Q)
        (speaker_segments : list Fusion.speaker_segment) :
  segment_end <= segment_start ->
  Fusion.find_speaker_for_segment segment_start segment_end speaker_segments
  = "UNKNOWN"%string.
Proof.
  intros H. unfold Fusion.find_speaker_for_segment.
  destruct (find_loop_spec segment_start segment_end speaker_segments
                           0 "UNKNOWN"%string)
    as [[_ ->] | (pre & best & post & _ & Hlt & _)].
  - reflexivity.
  - rewrite (overlap_degenerate _ _ best H) in Hlt.
    exfalso. apply (Qlt_irrefl 0). exact Hlt.
Qed.

(** X10.  When one candidate overlaps the query strictly more than every
    other one, the result is its label in whatever order the candidates
    are listed. *)
Theorem find_speaker_order_independent
        (segment_start segment_end : Q)
        (pre post candidates : list Fusion.speaker_segment)
        (best : Fusion.speaker_segment) :
  0 < Fusion.overlap segment_start segment_end best ->
  (forall seg,
      In seg (pre ++ post) ->
      Fusion.overlap segment_start segment_end seg
      < Fusion.overlap segment_start segment_end best) ->
  Permutation.Permutation (pre ++ best :: post) candidates ->
  Fusion.find_speaker_for_segment segment_start segment_end candidates
  = Fusion.sp_speaker best.
Proof.
  intros Hpos Hstrict Hperm. unfold Fusion.find_speaker_for_segment.
  assert (Hin : In best candidates).
  { apply (Permutation.Permutation_in _ Hperm).
    apply in_or_app. right. now left. }
  assert (Hothers :
            forall seg,
              In seg candidates ->
              seg = best
              \/ Fusion.overlap segment_start segment_end seg
                 < Fusion.overlap segment_start segment_end best).
  { intros seg Hseg.
    apply (Permutation.Permutation_in _ (Permutation.Permutation_sym Hperm))
      in Hseg.
    apply in_app_or in Hseg as [Hseg | [<- | Hseg]].
    - right. apply Hstrict. apply in_or_app. now left.
    - now left.
    - right. apply Hstrict. apply in_or_app. now right. }
  destruct (find_loop_spec segment_start segment_end candidates
                           0 "UNKNOWN"%string)
    as [[Hall _] | (pre' & b' & post' & E & Hlt & Hpre & Hpost & ->)].
  - exfalso. specialize (Hall best Hin). lra.
  - assert (Hlt' : Py.ltb 0 (Fusion.overlap segment_start segment_end b')
                   = true) by now apply ltb_lt.
    rewrite Hlt'.
    assert (Hb' : In b' candidates).
    { rewrite E. apply in_or_app. right. now left. }
    destruct (Hothers b' Hb') as [-> | Hless]; [reflexivity|].
    exfalso. rewrite E in Hin.
    apply in_app_or in Hin as [Hin | [Heq | Hin]].
    + specialize (Hpre best Hin). lra.
    + subst. lra.
    + specialize (Hpost best Hin). lra.
Qed.

(** ** Fusion: what a merged segment carries *)

Section MergeMore.
Import Py Fusion.

Context {world : Type}.
Variable save_json :
  merged_transcript -> string -> world -> outcome unit * world.


End MergeMore.


(** ** Duration-based chunker: identifiers, counts and windows *)

Section ChunkerMore.
Import Py Helpers Fusion Chunking Spec.

Variable segments : list merged_segment.
Variables chunk_duration chunk_overlap : Q.
Variable min_chunk_size : Z.

Let step' := step segments chunk_duration chunk_overlap min_chunk_size.
Let loop' := loop segments chunk_duration chunk_overlap min_chunk_size.



Lemma step_window st idx seg :
  0 <= chunk_overlap ->
  window_state st ->
  (forall e, acc_end (snd st) = Some e -> e <= ms_end seg) ->
  window_state (step' st idx seg).
Proof.
  intros Hov [Hsaved (s & e & Hs & He & Hse)] Hnext.
  destruct st as [chunks cur]. cbn [fst snd] in *.
  specialize (Hnext e He).
  unfold step', step. rewrite Hs. cbn [get].
  destruct (flushes _ _ _ _ _); split; cbn [fst snd].
  - apply Forall_app. split; [exact Hsaved|].
    constructor; [|constructor].
    exists s, (ms_end seg). cbn. repeat split. lra.
  - exists (ms_end seg - chunk_overlap), (ms_end seg). cbn.
    repeat split. lra.
  - exact Hsaved.
  - exists s, (ms_end seg). cbn. repeat split. lra.
Qed.

Lemma loop_window (rest : list merged_segment) :
  0 <= chunk_overlap ->
  forall idx st,
    window_state st ->
    (forall e, acc_end (snd st) = Some e -> ends_from e rest) ->
    window_state (loop' idx rest st).
Proof.
  intros Hov. induction rest as [|seg rest IH]; intros idx st Hst Hends.
  - exact Hst.
  - cbn [loop' loop]. apply IH.
    + apply step_window; [exact Hov | exact Hst|].
      intros e He. now destruct (Hends e He).
    + intros e He. pose proof (step_end segments chunk_duration
                                 chunk_overlap min_chunk_size st idx seg)
        as Hend.
      unfold step' in He. rewrite Hend in He. inversion He; subst.
      destruct Hst as [_ (s0 & e0 & _ & He0 & _)].
      now destruct (Hends e0 He0).
Qed.

Lemma first_step_window seg :
  0 <= chunk_overlap -> ms_start seg <= ms_end seg ->
  window_state (step' ([], empty_accumulator) 0 seg).
Proof.
  intros Hov Hseg. unfold step', step.
  cbn [acc_start empty_accumulator get].
  destruct (flushes _ _ _ _ _); split; cbn [fst snd].
  - constructor; [|constructor].
    exists (ms_start seg), (ms_end seg). cbn. repeat split. exact Hseg.
  - exists (ms_end seg - chunk_overlap), (ms_end seg). cbn.
    repeat split. lra.
  - constructor.
  - exists (ms_start seg), (ms_end seg). cbn. repeat split. exact Hseg.
Qed.

End ChunkerMore.

(** X12.  The chunks that [chunk_transcript] returns are numbered from 0
    in the order of the list, and all carry the transcript's file name (or
    ["unknown"] when it has none). *)
Theorem chunk_transcript_ids_sequential
        (transcript : Fusion.merged_transcript)
        (chunk_duration chunk_overlap : option Q) (min_chunk_size : Z)
        (chunks : list Chunking.chunk) :
  Chunking.chunk_transcript transcript chunk_duration chunk_overlap
                            min_chunk_size
  = Py.Returned chunks ->
  forall i c,
    nth_error chunks i = Some c ->
    Chunking.chunk_id c = i
    /\ Chunking.episode c
       = Py.get (Fusion.mt_file transcript) "unknown"%string.
Proof.
  unfold Chunking.chunk_transcript.
  destruct (Py.get (Fusion.mt_segments transcript) []) as [|seg rest].
  - intros H i c Hc. inversion H; subst. destruct i; discriminate.
  - intros H i c Hc. unfold Chunking.enumerate in H.
    apply traverse_enumerate_nth in H as [_ Hnth].
    destruct (Hnth i c Hc) as (a & _ & Hf).
    apply format_chunk_formats in Hf as (_ & Hid & Hep).
    now split.
Qed.


(** X14.  When the overlap in force is not negative, the first segment
    starts no later than it ends and the segments end one after the other,
    every returned chunk starts no later than it ends and has a
    non-negative duration. *)
Theorem chunk_transcript_windows_well_formed
        (transcript : Fusion.merged_transcript)
        (chunk_duration chunk_overlap : option Q) (min_chunk_size : Z)
        (first : Fusion.merged_segment)
        (rest : list Fusion.merged_segment)
        (chunks : list Chunking.chunk) :
  Fusion.mt_segments transcript = Some (first :: rest) ->
  0 <= Py.or_else chunk_overlap Config.CHUNK_OVERLAP ->
  Fusion.ms_start first <= Fusion.ms_end first ->
  Spec.ends_from (Fusion.ms_end first) rest ->
  Chunking.chunk_transcript transcript chunk_duration chunk_overlap
                            min_chunk_size
  = Py.Returned chunks ->
  forall c,
    In c chunks ->
    Chunking.start c <= Chunking.end_ c /\ 0 <= Chunking.duration c.
Proof.
  intros Hsegs Hov Hfirst Hends Hret c Hc.
  assert (Hcopy := Hret).
  apply chunk_transcript_formats in Hret.
  rewrite Hsegs in Hret. cbn [Py.get] in Hret.
  assert (Hst : Spec.window_state
                  (Chunking.run (first :: rest)
                     (Py.or_else chunk_duration Config.CHUNK_DURATION)
                     (Py.or_else chunk_overlap Config.CHUNK_OVERLAP)
                     min_chunk_size)).
  { unfold Chunking.run. cbn [Chunking.loop].
    apply loop_window; [exact Hov | now apply first_step_window |].
    intros e He. rewrite step_end in He. inversion He; subst. exact Hends. }
  assert (Hall : Forall Spec.well_formed
                   (Chunking.collect (first :: rest)
                      (Py.or_else chunk_duration Config.CHUNK_DURATION)
                      (Py.or_else chunk_overlap Config.CHUNK_OVERLAP)
                      min_chunk_size)).
  { unfold Chunking.collect.
    destruct (Chunking.run _ _ _ _) as [saved cur].
    destruct Hst as [Hsaved Hcur]. cbn [fst snd] in *.
    destruct (Chunking.emits_final _ _); [|exact Hsaved].
    apply Forall_app. split; [exact Hsaved | now constructor]. }
  apply Forall2_flip in Hret.
  destruct (Forall2_In_l _ _ _ _ Hret Hc) as (a & Ha & Hf).
  rewrite Forall_forall in Hall.
  destruct (Hall a Ha) as (s & e & Hs & He & Hse).
  destruct Hf as (Hfs & Hfe & _).
  rewrite Hs in Hfs. rewrite He in Hfe. inversion Hfs; inversion Hfe; subst.
  split; [exact Hse|].
  unfold Chunking.chunk_transcript in Hcopy. rewrite Hsegs in Hcopy.
  cbn [Py.get] in Hcopy. unfold Chunking.enumerate in Hcopy.
  apply In_nth_error in Hc as [i Hi].
  apply traverse_enumerate_nth in Hcopy as [_ Hnth].
  destruct (Hnth i c Hi) as (a' & _ & Hf').
  unfold Chunking.format_chunk in Hf'.
  destruct (Chunking.timestamp_of (Chunking.acc_start a')); cbn in Hf';
    [|discriminate].
  destruct (Chunking.timestamp_of (Chunking.acc_end a')); cbn in Hf';
    [|discriminate].
  destruct (Chunking.acc_start a'); [|discriminate].
  destruct (Chunking.acc_end a'); [|discriminate].
  inversion Hf'; subst. cbn in *. apply round_nonneg. lra.
Qed.

(** ** Speaker-turn chunker: a turn that starts at time zero *)

Section TurnAtZero.
Import Py Fusion Chunking Spec.

Variable episode_name : string.
Variable max_turn_duration : Q.
Variable label : string.

Lemma nonempty_append_l (a b : string) :
  nonempty a = true -> nonempty (a ++ b) = true.
Proof. destruct a; [discriminate | reflexivity]. Qed.

Lemma turn_step_unsplit st seg :
  speaker_of seg = label ->
  unsplit label st ->
  unsplit label (turn_step episode_name max_turn_duration st seg).
Proof.
  destruct st as [[chunks current_speaker] cur].
  intros Hl (-> & -> & (s & Hs & Hz) & Htext).
  unfold turn_step, splits. rewrite Hl, Hs, Hz, Htext.
  cbn [speaker_differs]. rewrite String.eqb_refl.
  cbn [negb andb orb unsplit turn_start turn_text].
  repeat split.
  - exists s. now split.
  - now apply nonempty_append_l.
Qed.

Lemma first_turn_step_unsplit seg :
  speaker_of seg = label -> ms_start seg == 0 ->
  unsplit label (turn_step episode_name max_turn_duration
                           ([], None, empty_turn) seg).
Proof.
  intros Hl Hz. unfold turn_step, splits. rewrite Hl.
  cbn [speaker_differs empty_turn turn_text turn_start nonempty andb orb
       negb unsplit].
  repeat split.
  exists (ms_start seg). split; [reflexivity | now apply truthy_false].
Qed.

End TurnAtZero.

(** X15.  A turn that starts at time 0 is never split for its length: the
    test of line 144 takes the start time 0 for "no start time".  So when
    the first segment starts at 0 and all segments have the same speaker,
    the speaker-turn chunker returns at most one chunk, however small
    [max_turn_duration] is. *)
Theorem chunk_by_speaker_turns_start_zero_never_splits
        (transcript : Fusion.merged_transcript) (max_turn_duration : Q)
        (first : Fusion.merged_segment)
        (rest : list Fusion.merged_segment)
        (label : string) (chunks : list Chunking.turn_chunk) :
  Fusion.mt_segments transcript = Some (first :: rest) ->
  Fusion.ms_start first == 0 ->
  (forall seg, In seg (first :: rest) -> Chunking.speaker_of seg = label) ->
  Chunking.chunk_by_speaker_turns transcript max_turn_duration
  = Py.Returned chunks ->
  (List.length chunks <= 1)%nat.
Proof.
  intros Hsegs Hz Hl Hret.
  unfold Chunking.chunk_by_speaker_turns in Hret.
  rewrite Hsegs in Hret. cbn [Py.get] in Hret.
  unfold Chunking.enumerate in Hret.
  apply traverse_enumerate_nth in Hret as [-> _].
  unfold Chunking.collect_turns. cbn [fold_left].
  set (ep := match Fusion.mt_file transcript with
             | Some v => v
             | None => "unknown"%string
             end).
  assert (H : Spec.unsplit label
                (fold_left (Chunking.turn_step ep max_turn_duration) rest
                   (Chunking.turn_step ep max_turn_duration
                      ([], None, Chunking.empty_turn) first))).
  { apply fold_left_preserves.
    - intros st seg Hin. apply turn_step_unsplit. apply Hl. now right.
    - apply first_turn_step_unsplit; [apply Hl; now left | exact Hz]. }
  destruct (fold_left _ _ _) as [[saved current_speaker] cur].
  destruct H as (-> & _).
  destruct (Py.nonempty _); cbn; lia.
Qed.

(** ** Timestamps: clamping, reading back, rejecting *)

Section TimestampMore.
Import Py Helpers Spec.

Lemma contains_split c d (s : string) :
  contains c s = false ->
  Forall (fun p => contains c p = false) (split d s).
Proof.
  induction s as [|x s IH]; cbn [split contains].
  - intros _. constructor; [reflexivity | constructor].
  - intros H. apply orb_false_iff in H as [Hx Hs]. specialize (IH Hs).
    destruct (Ascii.eqb x d).
    + constructor; [reflexivity | exact IH].
    + destruct (split d s) as [|p ps].
      * constructor; [|constructor]. cbn. now rewrite Hx.
      * inversion IH; subst. constructor; [|assumption].
        cbn. now rewrite Hx.
Qed.

Lemma timedelta_seconds_bound x td :
  timedelta_of_seconds x = Returned td -> (0 <= td_seconds td < 86400)%Z.
Proof.
  unfold timedelta_of_seconds. destruct (_ || _); [discriminate|].
  intros H. inversion H; subst. cbn. apply Z.mod_pos_bound. lia.
Qed.

(** The clock fields of a number of seconds below one day. *)
Lemma clock_fields (n : Z) :
  (0 <= n < 86400)%Z ->
  (0 <= n / 3600 < 100)%Z
  /\ (0 <= n mod 3600 / 60 < 100)%Z
  /\ (0 <= n mod 60 < 100)%Z
  /\ (n / 3600 * 3600 + n mod 3600 / 60 * 60 + n mod 60 = n)%Z.
Proof.
  intros Hn.
  pose proof (Z.mod_pos_bound n 3600). pose proof (Z.mod_pos_bound n 60).
  repeat split; try lia.
  - apply Z.div_pos; lia.
  - apply Z.div_lt_upper_bound; lia.
  - apply Z.div_pos; lia.
  - apply Z.div_lt_upper_bound; lia.
  - pose proof (Z.div_mod n 3600). pose proof (Z.div_mod (n mod 3600) 60).
    assert ((n mod 3600) mod 60 = n mod 60)%Z.
    { apply Z.mod_mod_divide. exists 60%Z. reflexivity. }
    lia.
Qed.

Lemma round3_thousandths (n ms : Z) :
  round (inject_Z n + (ms # 1000)) 3 = (n * 1000 + ms # 1000).
Proof.
  change (round (inject_Z n + (ms # 1000)) 3)
    with (Qmake (round_half_even
                   ((inject_Z n + (ms # 1000)) * inject_Z 1000)) 1000).
  rewrite (round_half_even_integer _ (n * 1000 + ms)); [reflexivity|].
  rewrite inject_Z_plus, inject_Z_mult.
  change (inject_Z 1000) with 1000.
  rewrite (Qmake_Qdiv ms 1000). change (inject_Z (Z.pos 1000)) with 1000.
  field.
Qed.

Lemma milliseconds_bound (x : Q) :
  (0 <= int_of_float (mod1 x * inject_Z 1000) < 1000)%Z.
Proof.
  pose proof (Qfloor_le x) as Hf. pose proof (Qlt_floor x) as Hc.
  rewrite inject_Z_plus in Hc. change (inject_Z 1) with 1 in Hc.
  unfold mod1. set (q := (x - inject_Z (Qfloor x)) * inject_Z 1000).
  assert (Hq : 0 <= q /\ q < 1000).
  { unfold q. change (inject_Z 1000) with 1000. split; lra. }
  rewrite (int_of_float_floor q) by apply Hq.
  pose proof (Qfloor_le q) as Hqf. split.
  - change 0%Z with (Qfloor 0). apply Qfloor_resp_le. apply Hq.
  - rewrite Zlt_Qlt. change (inject_Z 1000) with 1000. lra.
Qed.

End TimestampMore.

(** X16.  Negative seconds are clamped to zero: every negative input is
    formatted as the zero time stamp. *)
Theorem seconds_to_timestamp_clamps_negative (seconds : Q) :
  seconds < 0 ->
  Helpers.seconds_to_timestamp seconds true
  = Py.Returned "00:00:00.000"%string
  /\ Helpers.seconds_to_timestamp seconds false
     = Py.Returned "00:00:00"%string.
Proof.
  intros H. apply ltb_lt in H. unfold Helpers.seconds_to_timestamp.
  rewrite H. split; vm_compute; reflexivity.
Qed.

(** X17.  [timestamp_to_seconds] reads back every string that
    [seconds_to_timestamp] produces, and the value read is always at least
    0 and below one day (86400 seconds), whatever the number of seconds
    formatted. *)
Theorem timestamp_reads_back_below_a_day (seconds : Q) :
  seconds <= Spec.MAX_SECONDS ->
  exists s y,
    Helpers.seconds_to_timestamp seconds true = Py.Returned s
    /\ Helpers.timestamp_to_seconds s = Py.Returned y
    /\ 0 <= y /\ y < 86400.
Proof.
  intros Hmax. unfold Helpers.seconds_to_timestamp.
  set (clamped := if Py.ltb seconds 0 then 0 else seconds).
  assert (H : 0 <= clamped /\ clamped <= Spec.MAX_SECONDS).
  { subst clamped. destruct (Py.ltb seconds 0) eqn:E.
    - split; [lra | unfold Spec.MAX_SECONDS; lra].
    - apply ltb_ge in E. split; assumption. }
  destruct (timedelta_of_seconds_returns clamped) as [td Htd];
    [apply H | apply H |].
  rewrite Htd. cbn [Py.bind].
  pose proof (timedelta_seconds_bound _ _ Htd) as Hn.
  destruct (clock_fields _ Hn) as (Hh & Hm & Hs & Hsum).
  pose proof (milliseconds_bound clamped) as Hms.
  eexists. eexists. split; [reflexivity|].
  rewrite timestamp_to_seconds_formatted by assumption.
  split; [reflexivity|].
  rewrite Hsum, round3_thousandths.
  set (n := Helpers.td_seconds td) in *.
  set (ms := Helpers.int_of_float _) in *.
  unfold Qle, Qlt. cbn [Qnum Qden]. split; lia.
Qed.

(** X18.  A string without a colon is never read as a time stamp:
    [timestamp_to_seconds] raises [ValueError] for it. *)
Theorem timestamp_without_colon_rejected (timestamp : string) :
  Helpers.contains ":"%char timestamp = false ->
  Helpers.timestamp_to_seconds timestamp = Py.Raised Py.ValueError.
Proof.
  intros Hc. unfold Helpers.timestamp_to_seconds.
  assert (H : exists e,
             Helpers.timestamp_to_seconds_body timestamp = Py.Raised e).
  { unfold Helpers.timestamp_to_seconds_body.
    destruct (Helpers.contains "."%char timestamp).
    - pose proof (contains_split ":"%char "."%char timestamp Hc) as Hparts.
      destruct (Helpers.split "."%char timestamp)
        as [|tp [|ms [|x l]]]; cbn [Py.bind]; eauto.
      destruct (Helpers.float_of_fraction ms) as [q|e]; cbn [Py.bind];
        [|eauto].
      inversion Hparts as [|? ? Htp _]; subst.
      rewrite (split_no_sep ":"%char tp Htp). cbn [Py.bind]. eauto.
    - cbn [Py.bind]. rewrite (split_no_sep ":"%char timestamp Hc).
      cbn [Py.bind]. eauto. }
  destruct H as [e ->]. reflexivity.
Qed.

(** ** File sizes *)

Section FileSize.
Import Py Helpers.

Lemma ltb_inject_Z (n m : Z) : ltb (inject_Z n) (inject_Z m) = (n <? m)%Z.
Proof.
  unfold ltb, inject_Z. cbn [Qnum Qden]. now rewrite !Z.mul_1_r.
Qed.

(** A whole number of bytes is printed with one zero decimal. *)
Lemma format_1f_whole (n : Z) :
  (0 <= n)%Z ->
  format_1f (inject_Z n) = (decimal n ++ ".0")%string.
Proof.
  intros Hn. unfold format_1f.
  assert (E : round_half_even (Qabs (inject_Z n) * inject_Z 10)
              = (n * 10)%Z).
  { apply round_half_even_integer.
    assert (Ha : Qabs (inject_Z n) == inject_Z n).
    { apply Qabs_pos. change 0 with (inject_Z 0).
      rewrite <- Zle_Qle. exact Hn. }
    rewrite Ha. now rewrite inject_Z_mult. }
  rewrite E.
  change 0 with (inject_Z 0). rewrite ltb_inject_Z.
  assert (Hlt : (n <? 0)%Z = false) by (apply Z.ltb_ge; lia).
  rewrite Hlt, Z.div_mul, Z.mod_mul by lia. reflexivity.
Qed.

End FileSize.

(** X19.  [format_file_size] prints a size in the largest unit that does
    not exceed it, from bytes up to terabytes: below 1024 bytes in B (a
    whole number followed by [.0]), then the size divided by 1024 once per
    unit in KB, MB and GB, and from 1024^4 bytes on in TB. *)
Theorem format_file_size_units (size_bytes : Z) :
  ((0 <= size_bytes < 1024)%Z ->
   Helpers.format_file_size size_bytes
   = (Helpers.decimal size_bytes ++ ".0 B")%string)
  /\ ((1024 <= size_bytes < 1024 ^ 2)%Z ->
      Helpers.format_file_size size_bytes
      = (Helpers.format_1f (inject_Z size_bytes / 1024) ++ " KB")%string)
  /\ ((1024 ^ 2 <= size_bytes < 1024 ^ 3)%Z ->
      Helpers.format_file_size size_bytes
      = (Helpers.format_1f (inject_Z size_bytes / 1024 / 1024)
         ++ " MB")%string)
  /\ ((1024 ^ 3 <= size_bytes < 1024 ^ 4)%Z ->
      Helpers.format_file_size size_bytes
      = (Helpers.format_1f (inject_Z size_bytes / 1024 / 1024 / 1024)
         ++ " GB")%string)
  /\ ((1024 ^ 4 <= size_bytes)%Z ->
      Helpers.format_file_size size_bytes
      = (Helpers.format_1f (inject_Z size_bytes / 1024 / 1024 / 1024 / 1024)
         ++ " TB")%string).
Proof.
  unfold Helpers.format_file_size.
  assert (Hlt : forall q bound : Q, q < bound -> Py.ltb q bound = true)
    by (intros; now apply ltb_lt).
  assert (Hge : forall q bound : Q, bound <= q -> Py.ltb q bound = false)
    by (intros; now apply ltb_ge).
  set (x := inject_Z size_bytes).
  assert (Hx : forall k : Z,
             ((k <= size_bytes)%Z -> inject_Z k <= x)
             /\ ((size_bytes < k)%Z -> x < inject_Z k)).
  { intros k. subst x. rewrite <- Zle_Qle, <- Zlt_Qlt. now split. }
  assert (Hinv : / 1024 == 1 # 1024) by reflexivity.
  repeat split; intros H; cbn [Helpers.format_file_size_from].
  - rewrite Hlt by (apply (Hx 1024%Z); lia).
    subst x. rewrite format_1f_whole by lia.
    rewrite append_assoc. reflexivity.
  - rewrite Hge by (apply (Hx 1024%Z); lia).
    rewrite Hlt; [reflexivity|].
    pose proof (proj2 (Hx (1024 ^ 2)%Z) ltac:(lia)) as Hb.
    change (inject_Z (1024 ^ 2)) with 1048576 in Hb.
    unfold Qdiv. rewrite Hinv. lra.
  - pose proof (proj1 (Hx (1024 ^ 2)%Z) ltac:(lia)) as Ha.
    pose proof (proj2 (Hx (1024 ^ 3)%Z) ltac:(lia)) as Hb.
    change (inject_Z (1024 ^ 2)) with 1048576 in Ha.
    change (inject_Z (1024 ^ 3)) with 1073741824 in Hb.
    rewrite Hge by (change 1024 with (inject_Z 1024); apply Hx; lia).
    rewrite Hge by (unfold Qdiv; rewrite Hinv; lra).
    rewrite Hlt; [reflexivity|]. unfold Qdiv. rewrite Hinv. lra.
  - pose proof (proj1 (Hx (1024 ^ 3)%Z) ltac:(lia)) as Ha.
    pose proof (proj2 (Hx (1024 ^ 4)%Z) ltac:(lia)) as Hb.
    change (inject_Z (1024 ^ 3)) with 1073741824 in Ha.
    change (inject_Z (1024 ^ 4)) with 1099511627776 in Hb.
    rewrite Hge by (change 1024 with (inject_Z 1024); apply Hx; lia).
    rewrite Hge by (unfold Qdiv; rewrite Hinv; lra).
    rewrite Hge by (unfold Qdiv; rewrite Hinv; lra).
    rewrite Hlt; [reflexivity|]. unfold Qdiv. rewrite Hinv. lra.
  - pose proof (proj1 (Hx (1024 ^ 4)%Z) ltac:(lia)) as Ha.
    change (inject_Z (1024 ^ 4)) with 1099511627776 in Ha.
    rewrite Hge by (change 1024 with (inject_Z 1024); apply Hx; lia).
    rewrite Hge by (unfold Qdiv; rewrite Hinv; lra).
    rewrite Hge by (unfold Qdiv; rewrite Hinv; lra).
    rewrite Hge by (unfold Qdiv; rewrite Hinv; lra).
    reflexivity.
Qed.

(** ** Instances of the further properties *)



(** A segment without speaker after one with speaker. *)
Lemma create_chunks_missing_speaker_raises_witness :
  Indexing.create_chunks_with_accurate_timestamps
    Samples.partly_anonymous None None
  = Py.Raised (Py.KeyError "speaker").
Proof.
  apply (create_chunks_missing_speaker_raises
           Samples.partly_anonymous None None _ eq_refl).
  apply Exists_cons_tl. apply Exists_cons_hd. reflexivity.
Defined.

(** The two chunks of the three-part episode start at 0 and at 35. *)
Lemma create_chunks_starts_nonnegative_witness :
  Indexing.create_chunks_with_accurate_timestamps
    Samples.three_parts None None
  = Py.Returned Samples.three_parts_chunks
  /\ forall c, In c Samples.three_parts_chunks -> 0 <= Indexing.start c.
Proof.
  assert (Hret : Indexing.create_chunks_with_accurate_timestamps
                   Samples.three_parts None None
                 = Py.Returned Samples.three_parts_chunks)
    by (vm_compute; reflexivity).
  split; [exact Hret|].
  refine (create_chunks_starts_nonnegative
            Samples.three_parts None None _
            (Samples.segment 0 40 "a" "SPEAKER_00") _
            eq_refl eq_refl _ Hret).
  apply Qle_bool_imp_le. reflexivity.
Defined.

Lemma create_chunks_speakers_nonempty_unique_witness :
  Indexing.create_chunks_with_accurate_timestamps
    Samples.three_parts None None
  = Py.Returned Samples.three_parts_chunks
  /\ forall c,
      In c Samples.three_parts_chunks ->
      Indexing.speakers c <> [] /\ NoDup (Indexing.speakers c).
Proof.
  assert (Hret : Indexing.create_chunks_with_accurate_timestamps
                   Samples.three_parts None None
                 = Py.Returned Samples.three_parts_chunks)
    by (vm_compute; reflexivity).
  split; [exact Hret|].
  exact (create_chunks_speakers_nonempty_unique _ _ _ _ Hret).
Defined.

Lemma create_chunks_ids_distinct_witness :
  Indexing.create_chunks_with_accurate_timestamps
    Samples.three_parts None None
  = Py.Returned Samples.three_parts_chunks
  /\ forall i j ci cj,
      nth_error Samples.three_parts_chunks i = Some ci ->
      nth_error Samples.three_parts_chunks j = Some cj ->
      (exists file,
          Fusion.mt_file Samples.three_parts = Some file
          /\ Indexing.id ci
             = (file ++ "_" ++ Helpers.decimal (Z.of_nat i))%string)
      /\ (Indexing.id ci = Indexing.id cj -> i = j).
Proof.
  assert (Hret : Indexing.create_chunks_with_accurate_timestamps
                   Samples.three_parts None None
                 = Py.Returned Samples.three_parts_chunks)
    by (vm_compute; reflexivity).
  split; [exact Hret|].
  exact (create_chunks_ids_distinct _ _ _ _ Hret).
Defined.

(** The first chunk of the three-part episode, stored and read back. *)
Lemma stored_chunk_reads_back_witness :
  exists c,
    hd_error Samples.three_parts_chunks = Some c
    /\ Retrieval.r_speakers
         (Retrieval.format_result "episode.mp3_0" "a"
                                  (Indexing.chunk_metadata c) (1 # 4))
       = ["SPEAKER_00"%string].
Proof.
  eexists. split; [reflexivity|].
  refine (proj1 (stored_chunk_reads_back _ "episode.mp3_0" "a" (1 # 4) _ _)).
  - discriminate.
  - repeat constructor.
Defined.

(** Two files, of which the second cannot be loaded. *)
Lemma batch_index_counts_every_file_witness :
  exists stats w',
    Indexing.batch_index_transcripts
      Samples.open_collection Samples.add_anything Samples.load_first
      Samples.two_files (fun file => file) None None tt
    = (Py.Returned stats, w')
    /\ Indexing.st_total stats = 2%Z
    /\ (Indexing.st_success stats + Indexing.st_failed stats
        = Indexing.st_total stats)%Z
    /\ (0 <= Indexing.st_success stats)%Z
    /\ (0 <= Indexing.st_failed stats)%Z
    /\ (0 <= Indexing.st_total_chunks stats)%Z
    /\ forall failed_files,
        Indexing.st_failed_files stats = Some failed_files ->
        Z.of_nat (List.length failed_files) = Indexing.st_failed stats.
Proof.
  exact (batch_index_counts_every_file
           unit unit Samples.open_collection Samples.add_anything
           Samples.load_first Samples.two_files (fun file => file)
           None None tt tt tt eq_refl).
Defined.

(** A query from 20 back to 10 seconds. *)
Lemma find_speaker_degenerate_query_witness :
  Fusion.find_speaker_for_segment
    20 10 (Py.get (Fusion.di_segments Samples.two_speakers) [])
  = "UNKNOWN"%string.
Proof.
  apply find_speaker_degenerate_query.
  apply Qle_bool_imp_le. reflexivity.
Defined.

(** The end-to-end scenario with the two speaker intervals swapped. *)
Lemma find_speaker_order_independent_witness :
  Fusion.find_speaker_for_segment
    5 10
    [Fusion.Build_speaker_segment 7 15 "SPEAKER_01";
     Fusion.Build_speaker_segment 0 7 "SPEAKER_00"]
  = "SPEAKER_01"%string.
Proof.
  refine (find_speaker_order_independent
            5 10 [Fusion.Build_speaker_segment 0 7 "SPEAKER_00"] [] _
            (Fusion.Build_speaker_segment 7 15 "SPEAKER_01") _ _ _).
  - vm_compute. reflexivity.
  - intros seg [<- | []]. vm_compute. reflexivity.
  - apply perm_swap.
Defined.


Lemma chunk_transcript_ids_sequential_witness :
  Chunking.chunk_transcript Samples.two_sentences (Some 3) (Some 1) 50
  = Py.Returned Samples.two_sentences_chunks
  /\ forall i c,
      nth_error Samples.two_sentences_chunks i = Some c ->
      Chunking.chunk_id c = i
      /\ Chunking.episode c
         = Py.get (Fusion.mt_file Samples.two_sentences) "unknown"%string.
Proof.
  assert (Hret : Chunking.chunk_transcript Samples.two_sentences
                                           (Some 3) (Some 1) 50
                 = Py.Returned Samples.two_sentences_chunks)
    by (vm_compute; reflexivity).
  split; [exact Hret|].
  exact (chunk_transcript_ids_sequential _ _ _ _ _ Hret).
Defined.


Lemma chunk_transcript_windows_well_formed_witness :
  Chunking.chunk_transcript Samples.two_sentences (Some 3) (Some 1) 50
  = Py.Returned Samples.two_sentences_chunks
  /\ forall c,
      In c Samples.two_sentences_chunks ->
      Chunking.start c <= Chunking.end_ c /\ 0 <= Chunking.duration c.
Proof.
  assert (Hret : Chunking.chunk_transcript Samples.two_sentences
                                           (Some 3) (Some 1) 50
                 = Py.Returned Samples.two_sentences_chunks)
    by (vm_compute; reflexivity).
  split; [exact Hret|].
  refine (chunk_transcript_windows_well_formed
            Samples.two_sentences (Some 3) (Some 1) 50
            (Samples.segment 0 2 Samples.sentence "SPEAKER_00")
            [Samples.segment 2 4 Samples.sentence "SPEAKER_01"]
            _ eq_refl _ _ _ Hret).
  - apply Qle_bool_imp_le. reflexivity.
  - apply Qle_bool_imp_le. reflexivity.
  - split; [apply Qle_bool_imp_le; reflexivity | exact I].
Defined.

(** 200 seconds of one speaker from time 0, with turns of one second at
    most: one chunk. *)
Lemma chunk_by_speaker_turns_start_zero_never_splits_witness :
  Chunking.chunk_by_speaker_turns Samples.monologue 1
  = Py.Returned Samples.monologue_turns
  /\ (List.length Samples.monologue_turns <= 1)%nat.
Proof.
  assert (Hret : Chunking.chunk_by_speaker_turns Samples.monologue 1
                 = Py.Returned Samples.monologue_turns)
    by (vm_compute; reflexivity).
  split; [exact Hret|].
  refine (chunk_by_speaker_turns_start_zero_never_splits
            Samples.monologue 1
            (Samples.segment 0 50 "a" "SPEAKER_00")
            [Samples.segment 50 200 "b" "SPEAKER_00"]
            "SPEAKER_00" _ eq_refl _ _ Hret).
  - reflexivity.
  - intros seg [<- | [<- | []]]; reflexivity.
Defined.

Lemma seconds_to_timestamp_clamps_negative_witness :
  Helpers.seconds_to_timestamp (-5) true
  = Py.Returned "00:00:00.000"%string
  /\ Helpers.seconds_to_timestamp (-5) false
     = Py.Returned "00:00:00"%string.
Proof.
  apply seconds_to_timestamp_clamps_negative. reflexivity.
Defined.

(** 25 hours. *)
Lemma timestamp_reads_back_below_a_day_witness :
  exists s y,
    Helpers.seconds_to_timestamp 90000 true = Py.Returned s
    /\ Helpers.timestamp_to_seconds s = Py.Returned y
    /\ 0 <= y /\ y < 86400.
Proof.
  apply timestamp_reads_back_below_a_day.
  apply Qle_bool_imp_le. reflexivity.
Defined.

Lemma timestamp_without_colon_rejected_witness :
  Helpers.timestamp_to_seconds "12.5" = Py.Raised Py.ValueError.
Proof.
  apply timestamp_without_colon_rejected. reflexivity.
Defined.

(** One and a half kilobytes. *)
Lemma format_file_size_units_witness :
  Helpers.format_file_size 1536
  = (Helpers.format_1f (inject_Z 1536 / 1024) ++ " KB")%string.
Proof.
  apply (proj1 (proj2 (format_file_size_units 1536))). lia.
Defined.
